(** * ubiattach: attaching an MTD device to UBI

    A shallow embedding of [ubi-utils/src/ubiattach.c] and the properties of
    its command line parser [parse_opt] and of [main].

    The program is sequential C code that mutates one global record
    ([myargs]), writes to stdout and stderr and calls into libubi.  It is
    embedded in a small state monad whose state holds the global record, the
    state of the C library's option scanner, the outside world libubi talks
    to, and the log of everything the program did that can be seen from
    outside.

    Conventions of the model:
    - [int] is 32 bits wide and [unsigned long] 64 bits (LP64); values are
      kept in [Z] and the conversions are written out;
    - a C string is a [string]; a [char *] that may be [NULL] is an
      [option string]; a pointer into a string is an offset into it;
    - format strings are kept as the source spells them (escape sequences
      are not interpreted), the arguments are kept beside them. *)

From Stdlib Require Import ZArith List String Ascii Bool Lia.
Import ListNotations.
Open Scope string_scope.
Open Scope list_scope.
Open Scope Z_scope.

(** ** C scalars *)

Definition INT_BITS : Z := 32.
Definition ULONG_MAX : Z := 2 ^ 64 - 1.

(** Conversion of an [unsigned long] to [int]: the value is reduced modulo
    2^32 into the range of [int]. *)
Definition to_int (v : Z) : Z :=
  (v + 2 ^ (INT_BITS - 1)) mod 2 ^ INT_BITS - 2 ^ (INT_BITS - 1).

(** The code of a character constant, as in ['d']. *)
Definition chr (c : ascii) : Z := Z.of_nat (nat_of_ascii c).

(** The double quote character of the C literals. *)
Definition dq : string := String (ascii_of_nat 34) EmptyString.

(** [s[i]], where the terminating NUL is what lies past the end. *)
Definition deref (s : string) (i : nat) : Z :=
  match String.get i s with
  | Some c => chr c
  | None => 0
  end.

(** ** The C library: [strtoul]

    [strtoul nptr &endp 0] of ISO C: optional white space, an optional sign,
    an optional base prefix ([0x] or [0X] for 16, a leading [0] for 8, else
    10), then the longest run of digits of that base.  The result is the
    value, negated in [unsigned long] when a minus sign was read, or
    [ULONG_MAX] when the digits denote a value that does not fit; [endp] is
    the offset of the first character that was not consumed, and is [0] when
    no digits were found. *)

Definition isspace (c : ascii) : bool :=
  let n := nat_of_ascii c in
  Nat.eqb n 32 || (Nat.leb 9 n && Nat.leb n 13).

Definition digit_value (c : ascii) : option Z :=
  let n := nat_of_ascii c in
  if Nat.leb 48 n && Nat.leb n 57 then Some (Z.of_nat n - 48)
  else if Nat.leb 65 n && Nat.leb n 90 then Some (Z.of_nat n - 65 + 10)
  else if Nat.leb 97 n && Nat.leb n 122 then Some (Z.of_nat n - 97 + 10)
  else None.

Fixpoint skip_spaces (s : string) : nat * string :=
  match s with
  | String c s' =>
      if isspace c then let '(n, r) := skip_spaces s' in (S n, r) else (O, s)
  | EmptyString => (O, s)
  end.

(** The digits of [s] in [base], accumulated on [acc]: the value and the
    number of characters consumed. *)
Fixpoint scan_digits (base : Z) (s : string) (acc : Z) : Z * nat :=
  match s with
  | String c s' =>
      match digit_value c with
      | Some d =>
          if d <? base
          then let '(v, n) := scan_digits base s' (acc * base + d) in (v, S n)
          else (acc, O)
      | None => (acc, O)
      end
  | EmptyString => (acc, O)
  end.

Definition is_x (c : ascii) : bool :=
  Nat.eqb (nat_of_ascii c) 120 || Nat.eqb (nat_of_ascii c) 88.

Definition strtoul (nptr : string) : Z * nat :=
  let '(nsp, s1) := skip_spaces nptr in
  let '(negative, nsg, s2) :=
    match s1 with
    | String "-" r => (true, 1%nat, r)
    | String "+" r => (false, 1%nat, r)
    | _ => (false, 0%nat, s1)
    end in
  let '(base, npre, s3) :=
    match s2 with
    | String "0" (String x r) => if is_x x then (16, 2%nat, r) else (8, 0%nat, s2)
    | String "0" EmptyString => (8, 0%nat, s2)
    | _ => (10, 0%nat, s2)
    end in
  let '(i, nd) := scan_digits base s3 0 in
  match nd with
  | O =>
      (* no digits: nothing is converted, except the zero of a bare 0x *)
      if Nat.eqb npre 2 then (0, (nsp + nsg + 1)%nat) else (0, O)
  | _ =>
      let endp := (nsp + nsg + npre + nd)%nat in
      if ULONG_MAX <? i then (ULONG_MAX, endp)
      else if negative then ((- i) mod (ULONG_MAX + 1), endp)
      else (i, endp)
  end.

(** ** The C library: [getopt_long]

    The scanner of the GNU C library.  Its state is the argument vector
    split in three, [gd_done ++ gd_skipped ++ gd_pending]:
    - [gd_done]: [argv[0]] and the option words (with their arguments)
      consumed so far;
    - [gd_skipped]: the non-options passed over, which the scanner moves
      behind the options (it permutes [argv] unless [POSIXLY_CORRECT] is
      set in the environment);
    - [gd_pending]: the words not looked at yet;
    together with the rest of the word of short options being scanned
    ([gd_nextchar]) and [optarg].  A word is moved to [gd_done] when the
    scanner enters it.  Of the syntax of [optstring] the model has what the
    program uses: option characters, each followed by a colon when it takes
    an argument. *)

Record getopt_data : Type := {
  gd_done : list string;
  gd_skipped : list string;
  gd_pending : list string;
  gd_nextchar : string;
  optarg : option string;
  gd_posixly_correct : bool
}.

(** [optind] starts at 1 and, when the scan is over, is the index of the
    first non-option of the permuted vector. *)
Definition optind (d : getopt_data) : Z :=
  Z.max 1 (Z.of_nat (List.length (gd_done d))).

Definition gd_argv (d : getopt_data) : list string :=
  gd_done d ++ gd_skipped d ++ gd_pending d.

Definition getopt_initialize (posixly_correct : bool) (argv : list string)
  : getopt_data :=
  {| gd_done := firstn 1 argv;
     gd_skipped := [];
     gd_pending := skipn 1 argv;
     gd_nextchar := "";
     optarg := None;
     gd_posixly_correct := posixly_correct |}.

Record option_t : Type := {
  name : string;
  has_arg : Z;
  val : Z
}.

(** What the scanner prints on stderr when it returns ['?']. *)
Inductive getopt_diag : Type :=
| invalid_option (c : ascii)
| option_requires_an_argument (c : ascii)
| option_is_ambiguous (word : string)
| unrecognized_option (word : string)
| option_doesnt_allow_an_argument (nm : string)
| long_option_requires_an_argument (nm : string).

(** [argv[optind][0] != '-' || argv[optind][1] == 0] *)
Definition NONOPTION_P (a : string) : bool :=
  match a with
  | String "-" (String _ _) => false
  | _ => true
  end.

Fixpoint skip_nonoptions (pending skipped : list string)
  : list string * list string :=
  match pending with
  | a :: rest =>
      if NONOPTION_P a then skip_nonoptions rest (skipped ++ [a])
      else (pending, skipped)
  | [] => ([], skipped)
  end.

(** The entry of [optstring] for the character [c]: [None] when [c] is not
    an option, else whether it takes an argument (a colon follows it). *)
Fixpoint optstring_find (optstring : string) (c : ascii) : option bool :=
  match optstring with
  | String o rest =>
      if Ascii.eqb o c
      then Some (match rest with String ":" _ => true | _ => false end)
      else optstring_find rest c
  | EmptyString => None
  end.

(** The name of a long option word: what precedes the first [=], and the
    argument after it, if there is one. *)
Fixpoint split_name (w : string) : string * option string :=
  match w with
  | String "=" rest => ("", Some rest)
  | String c rest => let '(n, a) := split_name rest in (String c n, a)
  | EmptyString => ("", None)
  end.

Definition exact_match (longopts : list option_t) (nm : string)
  : option option_t :=
  find (fun p => String.eqb (name p) nm) longopts.

Definition abbreviations (longopts : list option_t) (nm : string)
  : list option_t :=
  filter (fun p => String.prefix nm (name p)) longopts.

Definition same_option (p q : option_t) : bool :=
  (has_arg p =? has_arg q) && (val p =? val q).

Inductive long_lookup : Type :=
| Found (p : option_t)
| Ambiguous
| Unknown.

Definition lookup_long (longopts : list option_t) (nm : string)
  : long_lookup :=
  match exact_match longopts nm with
  | Some p => Found p
  | None =>
      match abbreviations longopts nm with
      | [] => Unknown
      | p :: others =>
          if forallb (same_option p) others then Found p else Ambiguous
      end
  end.

Definition QUESTION : Z := chr "?".

(** A word [--name] or [--name=arg]; [w] is the word without the dashes.
    The word itself has been moved to [gd_done] already. *)
Definition process_long_option (longopts : list option_t) (w : string)
    (d : getopt_data) : Z * option getopt_diag * getopt_data :=
  let '(nm, arg) := split_name w in
  match lookup_long longopts nm with
  | Ambiguous => (QUESTION, Some (option_is_ambiguous w), d)
  | Unknown => (QUESTION, Some (unrecognized_option w), d)
  | Found p =>
      match arg with
      | Some a =>
          if has_arg p =? 0
          then (QUESTION, Some (option_doesnt_allow_an_argument (name p)), d)
          else (val p, None,
                {| gd_done := gd_done d; gd_skipped := gd_skipped d;
                   gd_pending := gd_pending d; gd_nextchar := "";
                   optarg := Some a;
                   gd_posixly_correct := gd_posixly_correct d |})
      | None =>
          if has_arg p =? 1
          then match gd_pending d with
               | a :: rest =>
                   (val p, None,
                    {| gd_done := gd_done d ++ [a];
                       gd_skipped := gd_skipped d;
                       gd_pending := rest; gd_nextchar := "";
                       optarg := Some a;
                       gd_posixly_correct := gd_posixly_correct d |})
               | [] =>
                   (QUESTION,
                    Some (long_option_requires_an_argument (name p)), d)
               end
          else (val p, None, d)
      end
  end.

(** The next character [c] of a word of short options; [rest] is what
    follows it in the word. *)
Definition process_short_option (optstring : string) (c : ascii)
    (rest : string) (d : getopt_data) : Z * option getopt_diag * getopt_data :=
  let d' := {| gd_done := gd_done d; gd_skipped := gd_skipped d;
               gd_pending := gd_pending d; gd_nextchar := rest;
               optarg := None;
               gd_posixly_correct := gd_posixly_correct d |} in
  match optstring_find optstring c with
  | None => (QUESTION, Some (invalid_option c), d')
  | Some takes_arg =>
      if Ascii.eqb c ":" || Ascii.eqb c ";"
      then (QUESTION, Some (invalid_option c), d')
      else if takes_arg then
        match rest with
        | String _ _ =>
            (chr c, None,
             {| gd_done := gd_done d; gd_skipped := gd_skipped d;
                gd_pending := gd_pending d; gd_nextchar := "";
                optarg := Some rest;
                gd_posixly_correct := gd_posixly_correct d |})
        | EmptyString =>
            match gd_pending d with
            | a :: more =>
                (chr c, None,
                 {| gd_done := gd_done d ++ [a];
                    gd_skipped := gd_skipped d;
                    gd_pending := more; gd_nextchar := "";
                    optarg := Some a;
                    gd_posixly_correct := gd_posixly_correct d |})
            | [] => (QUESTION, Some (option_requires_an_argument c), d')
            end
        end
      else (chr c, None, d')
  end.

Definition set_optarg_null (d : getopt_data) : getopt_data :=
  {| gd_done := gd_done d; gd_skipped := gd_skipped d;
     gd_pending := gd_pending d; gd_nextchar := gd_nextchar d;
     optarg := None; gd_posixly_correct := gd_posixly_correct d |}.

(** One call of [getopt_long]: the value returned, what it printed, and
    the new state of the scanner.  [optarg] is reset at each call, so that
    it is null after an option that takes no argument. *)
Definition getopt_long_r (optstring : string) (longopts : list option_t)
    (d0 : getopt_data) : Z * option getopt_diag * getopt_data :=
  match gd_argv d0 with
  | [] => (-1, None, d0)                               (* argc < 1 *)
  | _ :: _ =>
  let d := set_optarg_null d0 in
  match gd_nextchar d with
  | String c rest => process_short_option optstring c rest d
  | EmptyString =>
      (* advance to the next element of argv *)
      let '(pending, skipped) :=
        if gd_posixly_correct d then (gd_pending d, gd_skipped d)
        else skip_nonoptions (gd_pending d) (gd_skipped d) in
      let stop := {| gd_done := gd_done d; gd_skipped := skipped;
                     gd_pending := pending; gd_nextchar := "";
                     optarg := None;
                     gd_posixly_correct := gd_posixly_correct d |} in
      match pending with
      | [] => (-1, None, stop)
      | a :: rest =>
          let enter := {| gd_done := gd_done d ++ [a];
                          gd_skipped := skipped;
                          gd_pending := rest; gd_nextchar := "";
                          optarg := None;
                          gd_posixly_correct := gd_posixly_correct d |} in
          if String.eqb a "--" then
            (-1, None,
             {| gd_done := gd_done d ++ [a];
                gd_skipped := skipped ++ rest;
                gd_pending := []; gd_nextchar := "";
                optarg := None;
                gd_posixly_correct := gd_posixly_correct d |})
          else if NONOPTION_P a then (-1, None, stop)
          else
            match a with
            | String "-" (String "-" w) =>
                process_long_option longopts w enter
            | String "-" (String c rest') =>
                process_short_option optstring c rest' enter
            | _ => (-1, None, stop)
            end
      end
  end
  end.

(** ** libubi and the other externals

    [libubi.h] and [common.h] are not part of the file under study; the
    types below have the fields [main] touches, and the library is a
    parameter of the program: any functions on any type of worlds. *)

Definition libubi_t : Type := Z.
Definition NULL : libubi_t := 0.

Record ubi_info : Type := {
  ctrl_major : Z
}.

Record ubi_dev_info : Type := {
  info_dev_num : Z;
  total_lebs : Z;
  avail_lebs : Z;
  total_bytes : Z;
  avail_bytes : Z;
  leb_size : Z
}.

Record ubi_attach_request : Type := {
  dev_num : Z;
  mtd_num : Z;
  vid_hdr_offset : Z
}.

Record libubi_impl (world : Type) : Type := {
  impl_libubi_open : world -> libubi_t * world;
  impl_ubi_get_info : libubi_t -> world -> (Z * ubi_info) * world;
  impl_ubi_attach_mtd :
    libubi_t -> option string -> ubi_attach_request -> world ->
    (Z * ubi_attach_request) * world;
  impl_ubi_get_dev_info1 :
    libubi_t -> Z -> world -> (Z * ubi_dev_info) * world;
  impl_libubi_close : libubi_t -> world -> world
}.

Arguments impl_libubi_open {world}.
Arguments impl_ubi_get_info {world}.
Arguments impl_ubi_attach_mtd {world}.
Arguments impl_ubi_get_dev_info1 {world}.
Arguments impl_libubi_close {world}.

(** ** What a run does

    Every output and every call into libubi is logged, a call with its
    arguments and with what it returned. *)

Inductive fmt_arg : Type :=
| arg_s (s : string)
| arg_d (n : Z).

Inductive event : Type :=
| ev_getopt (diag : getopt_diag)
| ev_errmsg (fmt : string) (args : list fmt_arg)
| ev_fprintf_stderr (fmt : string) (args : list fmt_arg)
| ev_perror (s : string)
| ev_printf (fmt : string) (args : list fmt_arg)
| ev_ubiutils_print_bytes (bytes : Z) (bracket : Z)
| ev_libubi_open (ret : libubi_t)
| ev_ubi_get_info (libubi : libubi_t) (ret : Z) (info : ubi_info)
| ev_ubi_attach_mtd (libubi : libubi_t) (node : option string)
    (req : ubi_attach_request) (ret : Z) (req' : ubi_attach_request)
| ev_ubi_get_dev_info1 (libubi : libubi_t) (dev : Z) (ret : Z)
    (info : ubi_dev_info)
| ev_libubi_close (libubi : libubi_t).

(** How a computation ends: with a value; by [exit]; by reading through a
    null pointer; or with the loop bound of the model used up (which
    [parse_opt_terminates] rules out). *)
Inductive result (A : Type) : Type :=
| Val (a : A)
| Exit (status : Z)
| Fault
| OutOfFuel.

Arguments Val {A}.
Arguments Exit {A}.
Arguments Fault {A}.
Arguments OutOfFuel {A}.

(** The variables set by command line arguments. *)
Record args : Type := {
  devn : Z;
  mtdn : Z;
  vidoffs : Z;
  node : option string
}.

Definition PROGRAM_VERSION : string := "1.0".
Definition PROGRAM_NAME : string := "ubiattach".

Definition doc : string :=
  PROGRAM_NAME ++ " version " ++ PROGRAM_VERSION
  ++ " - a tool to attach MTD device to UBI.".

Definition optionsstr : string :=
"-d, --devn=<UBI device number>  the number to assign to the newly created UBI device\n"
++ "                                (the number is assigned automatically if this is not\n"
++ "                                specified\n"
++ "-m, --mtdn=<MTD device number>  MTD device number to attach\n"
++ "-o, --vid-hdr-offset            VID header offset (do not specify this unless you\n"
++ "                                really know what you do and the optimal defaults will\n"
++ "                                be used)\n"
++ "-h, --help                      print help message\n"
++ "-V, --version                   print program version".

Definition usage : string :=
"Usage: " ++ PROGRAM_NAME ++ "<UBI control device node file name> [-m <MTD device number>] [-d <UBI device number>]\n"
++ "\t\t[--mtdn=<MTD device number>] [--devn <UBI device number>]\n"
++ "Example 1: " ++ PROGRAM_NAME ++ " /dev/ubi_ctrl -m 0 - attach MTD device 0 (mtd0) to UBI\n"
++ "Example 2: " ++ PROGRAM_NAME ++ " /dev/ubi_ctrl -m 0 -d 3 - attach MTD device 0 (mtd0) to UBI and\n"
++ "           and create UBI device number 3 (ubi3)".

Definition long_options : list option_t :=
  [ {| name := "devn";           has_arg := 1; val := chr "d" |};
    {| name := "mtdn";           has_arg := 1; val := chr "m" |};
    {| name := "vid-hdr-offset"; has_arg := 1; val := chr "o" |};
    {| name := "help";           has_arg := 0; val := chr "h" |};
    {| name := "version";        has_arg := 0; val := chr "V" |} ].

(** The third argument of the call of [getopt_long] in [parse_opt]. *)
Definition optstring : string := "m:d:ohV".

(** A bound on the number of calls of [getopt_long] that return an option:
    each one consumes a character of a word or a whole word. *)
Definition getopt_measure (d : getopt_data) : nat :=
  String.length (gd_nextchar d)
  + list_sum (map (fun a => S (String.length a)) (gd_pending d)).

Section Program.

(** [UBI_DEV_NUM_AUTO] is a macro of [libubi.h]. *)
Variable UBI_DEV_NUM_AUTO : Z.

Variable world : Type.
Variable lib : libubi_impl world.

Record state : Type := {
  myargs : args;
  gd : getopt_data;
  the_world : world;
  log : list event
}.

Definition M (A : Type) : Type := state -> result A * state.

Definition ret {A : Type} (a : A) : M A := fun s => (Val a, s).

Definition bind {A B : Type} (c : M A) (k : A -> M B) : M B :=
  fun s =>
    match c s with
    | (Val a, s') => k a s'
    | (Exit n, s') => (Exit n, s')
    | (Fault, s') => (Fault, s')
    | (OutOfFuel, s') => (OutOfFuel, s')
    end.

Notation "x <- c ;; k" := (bind c (fun x => k))
  (at level 61, c at next level, right associativity).
Notation "' p <- c ;; k" := (bind c (fun x => let p := x in k))
  (at level 61, p pattern, c at next level, right associativity).
Notation "c ;; k" := (bind c (fun _ => k))
  (at level 61, right associativity).

Definition gets {A : Type} (f : state -> A) : M A := fun s => (Val (f s), s).

Definition exit {A : Type} (status : Z) : M A := fun s => (Exit status, s).
Definition fault {A : Type} : M A := fun s => (Fault, s).
Definition out_of_fuel {A : Type} : M A := fun s => (OutOfFuel, s).

Definition emit (e : event) : M unit :=
  fun s => (Val tt, {| myargs := myargs s; gd := gd s;
                       the_world := the_world s; log := log s ++ [e] |}).

Definition set_myargs (a : args) : M unit :=
  fun s => (Val tt, {| myargs := a; gd := gd s;
                       the_world := the_world s; log := log s |}).

(** The macro [errmsg] of [common.h] prints on stderr and has the value -1. *)
Definition errmsg (fmt : string) (a : list fmt_arg) : M Z :=
  emit (ev_errmsg fmt a) ;; ret (-1).

Definition fprintf_stderr (fmt : string) (a : list fmt_arg) : M unit :=
  emit (ev_fprintf_stderr fmt a).
Definition printf (fmt : string) (a : list fmt_arg) : M unit :=
  emit (ev_printf fmt a).
Definition perror (s : string) : M unit := emit (ev_perror s).
Definition ubiutils_print_bytes (bytes bracket : Z) : M unit :=
  emit (ev_ubiutils_print_bytes bytes bracket).

Definition getopt_long (opts : string) (longopts : list option_t) : M Z :=
  fun s =>
    let '(key, diag, d) := getopt_long_r opts longopts (gd s) in
    (Val key,
     {| myargs := myargs s; gd := d; the_world := the_world s;
        log := match diag with
               | Some m => log s ++ [ev_getopt m]
               | None => log s
               end |}).

(** A call into libubi: run it on the world and log it. *)
Definition call {A : Type} (f : world -> A * world) (ev : A -> event) : M A :=
  fun s =>
    let '(r, w) := f (the_world s) in
    (Val r, {| myargs := myargs s; gd := gd s; the_world := w;
               log := log s ++ [ev r] |}).

Definition libubi_open : M libubi_t :=
  call (impl_libubi_open lib) ev_libubi_open.

Definition ubi_get_info (libubi : libubi_t) : M (Z * ubi_info) :=
  call (impl_ubi_get_info lib libubi)
       (fun r => ev_ubi_get_info libubi (fst r) (snd r)).

Definition ubi_attach_mtd (libubi : libubi_t) (nd : option string)
    (req : ubi_attach_request) : M (Z * ubi_attach_request) :=
  call (impl_ubi_attach_mtd lib libubi nd req)
       (fun r => ev_ubi_attach_mtd libubi nd req (fst r) (snd r)).

Definition ubi_get_dev_info1 (libubi : libubi_t) (dev : Z)
  : M (Z * ubi_dev_info) :=
  call (impl_ubi_get_dev_info1 lib libubi dev)
       (fun r => ev_ubi_get_dev_info1 libubi dev (fst r) (snd r)).

Definition libubi_close (libubi : libubi_t) : M unit :=
  call (fun w => (tt, impl_libubi_close lib libubi w))
       (fun _ => ev_libubi_close libubi).

(** The initial value of the global [myargs]. *)
Definition myargs_init : args :=
  {| devn := UBI_DEV_NUM_AUTO; mtdn := -1; vidoffs := 0; node := None |}.

Definition set_devn (v : Z) : M unit :=
  a <- gets myargs ;;
  set_myargs {| devn := v; mtdn := mtdn a; vidoffs := vidoffs a;
                node := node a |}.
Definition set_mtdn (v : Z) : M unit :=
  a <- gets myargs ;;
  set_myargs {| devn := devn a; mtdn := v; vidoffs := vidoffs a;
                node := node a |}.
Definition set_vidoffs (v : Z) : M unit :=
  a <- gets myargs ;;
  set_myargs {| devn := devn a; mtdn := mtdn a; vidoffs := v;
                node := node a |}.
Definition set_node (v : option string) : M unit :=
  a <- gets myargs ;;
  set_myargs {| devn := devn a; mtdn := mtdn a; vidoffs := vidoffs a;
                node := v |}.

(** The loop of [parse_opt].  Its value is [None] when the loop is left by
    [break] and [Some v] when the function returns [v] from inside it. *)
Fixpoint parse_opt_loop (fuel : nat) : M (option Z) :=
  match fuel with
  | O => out_of_fuel
  | S fuel' =>
      key <- getopt_long optstring long_options ;;
      if key =? -1 then ret None
      else if key =? chr "d" then
        arg <- gets (fun s => optarg (gd s)) ;;
        match arg with
        | None => fault
        | Some optarg =>
            let '(v, endp) := strtoul optarg in
            set_devn (to_int v) ;;
            a <- gets myargs ;;
            if negb (deref optarg endp =? 0) || Nat.eqb endp 0
               || (devn a <? 0)
            then
              errmsg ("bad UBI device number: " ++ dq ++ "%s" ++ dq)
                     [arg_s optarg] ;;
              ret (Some (-1))
            else parse_opt_loop fuel'
        end
      else if key =? chr "m" then
        arg <- gets (fun s => optarg (gd s)) ;;
        match arg with
        | None => fault
        | Some optarg =>
            let '(v, endp) := strtoul optarg in
            set_mtdn (to_int v) ;;
            a <- gets myargs ;;
            if negb (deref optarg endp =? 0) || Nat.eqb endp 0
               || (mtdn a <? 0)
            then
              errmsg ("bad MTD device number: " ++ dq ++ "%s" ++ dq)
                     [arg_s optarg] ;;
              ret (Some (-1))
            else parse_opt_loop fuel'
        end
      else if key =? chr "o" then
        arg <- gets (fun s => optarg (gd s)) ;;
        match arg with
        | None => fault
        | Some optarg =>
            let '(v, endp) := strtoul optarg in
            set_vidoffs (to_int v) ;;
            a <- gets myargs ;;
            if negb (deref optarg endp =? 0) || Nat.eqb endp 0
               || (vidoffs a <=? 0)
            then
              errmsg ("bad VID header offset: " ++ dq ++ "%s" ++ dq)
                     [arg_s optarg] ;;
              ret (Some (-1))
            else parse_opt_loop fuel'
        end
      else if key =? chr "h" then
        fprintf_stderr "%s\n\n" [arg_s doc] ;;
        fprintf_stderr "%s\n\n" [arg_s usage] ;;
        fprintf_stderr "%s\n" [arg_s optionsstr] ;;
        exit 0
      else if key =? chr "V" then
        fprintf_stderr "%s\n" [arg_s PROGRAM_VERSION] ;;
        exit 0
      else if key =? chr ":" then
        errmsg "parameter is missing" [] ;;
        ret (Some (-1))
      else
        fprintf_stderr "Use -h for help\n" [] ;;
        exit (-1)
  end.

Definition parse_opt (argc : Z) : M Z :=
  d <- gets gd ;;
  r <- parse_opt_loop (S (getopt_measure d)) ;;
  match r with
  | Some v => ret v
  | None =>
      d <- gets gd ;;
      if optind d =? argc then
        errmsg "UBI control device name was not specified (use -h for help)" [] ;;
        ret (-1)
      else if negb (optind d =? argc - 1) then
        errmsg "more then one UBI control device specified (use -h for help)" [] ;;
        ret (-1)
      else
        a <- gets myargs ;;
        if mtdn a =? -1 then
          errmsg "MTD device number was not specified (use -h for help)" [] ;;
          ret (-1)
        else
          set_node (nth_error (gd_argv d) (Z.to_nat (optind d))) ;;
          ret 0
  end.

(** The code at the label [out_libubi]. *)
Definition out_libubi (libubi : libubi_t) : M Z :=
  libubi_close libubi ;;
  ret (-1).

Definition main (argc : Z) : M Z :=
  err <- parse_opt argc ;;
  if negb (err =? 0) then ret (-1)
  else
    libubi <- libubi_open ;;
    if libubi =? NULL then
      errmsg "cannot open libubi" [] ;;
      perror "libubi_open" ;;
      ret (-1)
    else
      '(err, ubi_info) <- ubi_get_info libubi ;;
      if negb (err =? 0) then
        errmsg "cannot get UBI information" [] ;;
        perror "ubi_get_info" ;;
        out_libubi libubi
      else if ctrl_major ubi_info =? -1 then
        errmsg "MTD attach/detach feature is not supported by your kernel" [] ;;
        out_libubi libubi
      else
        a <- gets myargs ;;
        let req := {| dev_num := devn a; mtd_num := mtdn a;
                      vid_hdr_offset := vidoffs a |} in
        '(err, req) <- ubi_attach_mtd libubi (node a) req ;;
        if negb (err =? 0) then
          a <- gets myargs ;;
          errmsg "cannot attach mtd%d" [arg_d (mtdn a)] ;;
          perror "ubi_attach_mtd" ;;
          out_libubi libubi
        else
          '(err, dev_info) <- ubi_get_dev_info1 libubi (dev_num req) ;;
          if negb (err =? 0) then
            errmsg "cannot get information about newly created UBI device" [] ;;
            perror "ubi_get_dev_info1" ;;
            out_libubi libubi
          else
            printf "UBI device number %d, total %d LEBs ("
                   [arg_d (info_dev_num dev_info); arg_d (total_lebs dev_info)] ;;
            ubiutils_print_bytes (total_bytes dev_info) 0 ;;
            printf "), available %d LEBs (" [arg_d (avail_lebs dev_info)] ;;
            ubiutils_print_bytes (avail_bytes dev_info) 0 ;;
            printf "), LEB size " [] ;;
            ubiutils_print_bytes (leb_size dev_info) 1 ;;
            printf "\n" [] ;;
            libubi_close libubi ;;
            ret 0.

(** A run of the program: [main] is entered with the argument vector
    [argv], the scanner and [myargs] in their initial states. *)
Definition initial_state (posixly_correct : bool) (argv : list string)
    (w : world) : state :=
  {| myargs := myargs_init;
     gd := getopt_initialize posixly_correct argv;
     the_world := w;
     log := [] |}.

Definition run (posixly_correct : bool) (argv : list string) (w : world)
  : result Z * state :=
  main (Z.of_nat (List.length argv)) (initial_state posixly_correct argv w).

(** The call of [parse_opt] in that run. *)
Definition run_parse_opt (posixly_correct : bool) (argv : list string)
    (w : world) : result Z * state :=
  parse_opt (Z.of_nat (List.length argv))
            (initial_state posixly_correct argv w).

End Program.

Arguments myargs {world}.
Arguments gd {world}.
Arguments the_world {world}.
Arguments log {world}.
Arguments Build_state {world}.

(** ** The vocabulary of the properties *)

(** What one call of [getopt_long] hands to [parse_opt]: the value returned,
    [optarg], and what the scanner printed. *)
Definition token : Type := Z * option string * option getopt_diag.

(** The calls of [getopt_long] up to the one that returns -1, and the state
    of the scanner after that one. *)
Fixpoint getopt_all (fuel : nat) (d : getopt_data)
  : list token * getopt_data :=
  match fuel with
  | O => ([], d)
  | S fuel' =>
      let '(key, diag, d') := getopt_long_r optstring long_options d in
      if key =? -1 then ([], d')
      else
        let '(l, e) := getopt_all fuel' d' in
        ((key, optarg d', diag) :: l, e)
  end.

Definition scan (posixly_correct : bool) (argv : list string)
  : list token * getopt_data :=
  let d := getopt_initialize posixly_correct argv in
  getopt_all (S (getopt_measure d)) d.

(** The options of a command line, in the order [getopt_long] finds them. *)
Definition options_of (posixly_correct : bool) (argv : list string)
  : list token :=
  fst (scan posixly_correct argv).

(** The non-option arguments: what [getopt_long] leaves from [argv[optind]]
    on when the scan is over. *)
Definition operands_of (posixly_correct : bool) (argv : list string)
  : list string :=
  let d := snd (scan posixly_correct argv) in
  gd_skipped d ++ gd_pending d.

(** The whole of [s] is a number for [strtoul]: the scan stops at the
    terminating NUL and not where it started. *)
Definition whole_number (s : string) : bool :=
  let '(_, endp) := strtoul s in
  (deref s endp =? 0) && negb (Nat.eqb endp 0).

(** The value of [s] once stored in an [int]. *)
Definition number (s : string) : Z := to_int (fst (strtoul s)).

(** A C string has no NUL inside. *)
Fixpoint nul_free (s : string) : Prop :=
  match s with
  | String c s' => nat_of_ascii c <> O /\ nul_free s'
  | EmptyString => True
  end.

Definition is_key (key : ascii) (t : token) : bool :=
  fst (fst t) =? chr key.

(** The options the loop of [parse_opt] passes over and goes on: [d] and
    [m] with a number that is not negative, [o] with a positive one. *)
Definition accepted (t : token) : bool :=
  match t with
  | (key, Some s, _) =>
      if key =? chr "d" then whole_number s && (0 <=? number s)
      else if key =? chr "m" then whole_number s && (0 <=? number s)
      else if key =? chr "o" then whole_number s && (0 <? number s)
      else false
  | (_, None, _) => false
  end.

(** The argument of the last occurrence of the option [key], as a number. *)
Fixpoint last_value (key : ascii) (l : list token) (default : Z) : Z :=
  match l with
  | [] => default
  | (k, Some s, _) :: l' =>
      last_value key l' (if k =? chr key then number s else default)
  | (_, None, _) :: l' => last_value key l' default
  end.

(** The calls into libubi and the output on stdout, as opposed to the
    diagnostics on stderr. *)
Definition is_step (e : event) : bool :=
  match e with
  | ev_getopt _ | ev_errmsg _ _ | ev_fprintf_stderr _ _ | ev_perror _ => false
  | _ => true
  end.

Definition is_attach (e : event) : bool :=
  match e with
  | ev_ubi_attach_mtd _ _ _ _ _ => true
  | _ => false
  end.

Definition is_close (e : event) : bool :=
  match e with
  | ev_libubi_close _ => true
  | _ => false
  end.

(** A call that failed, and the name [perror] is given for it. *)
Definition failed_call (e : event) : option string :=
  match e with
  | ev_libubi_open h => if h =? NULL then Some "libubi_open" else None
  | ev_ubi_get_info _ r _ => if r =? 0 then None else Some "ubi_get_info"
  | ev_ubi_attach_mtd _ _ _ r _ =>
      if r =? 0 then None else Some "ubi_attach_mtd"
  | ev_ubi_get_dev_info1 _ _ r _ =>
      if r =? 0 then None else Some "ubi_get_dev_info1"
  | _ => None
  end.

Arguments ret {world A}.
Arguments bind {world A B}.
Arguments parse_opt_loop {world}.
Arguments parse_opt {world}.
Arguments main {world}.
Arguments run UBI_DEV_NUM_AUTO {world}.
Arguments run_parse_opt UBI_DEV_NUM_AUTO {world}.
Arguments initial_state UBI_DEV_NUM_AUTO {world}.

(** What an option that is accepted leaves in [myargs]. *)
Definition store (t : token) (a : args) : args :=
  match t with
  | (key, Some s, _) =>
      if key =? chr "d" then
        {| devn := number s; mtdn := mtdn a; vidoffs := vidoffs a;
           node := node a |}
      else if key =? chr "m" then
        {| devn := devn a; mtdn := number s; vidoffs := vidoffs a;
           node := node a |}
      else if key =? chr "o" then
        {| devn := devn a; mtdn := mtdn a; vidoffs := number s;
           node := node a |}
      else a
  | (_, None, _) => a
  end.

Definition store_all (l : list token) (a : args) : args :=
  fold_left (fun a t => store t a) l a.

(** What [getopt_long] printed for these options. *)
Definition diagnostics (l : list token) : list event :=
  flat_map (fun t : token =>
              match snd t with
              | Some m => [ev_getopt m]
              | None => []
              end) l.

(** How [parse_opt] ends at an option [t] that is not accepted: the way
    the loop is left and what is printed. *)
Definition rejection (t : token) : result (option Z) * list event :=
  let '(key, arg, _) := t in
  if key =? chr "d" then
    match arg with
    | Some s =>
        (Val (Some (-1)),
         [ev_errmsg ("bad UBI device number: " ++ dq ++ "%s" ++ dq) [arg_s s]])
    | None => (Fault, [])
    end
  else if key =? chr "m" then
    match arg with
    | Some s =>
        (Val (Some (-1)),
         [ev_errmsg ("bad MTD device number: " ++ dq ++ "%s" ++ dq) [arg_s s]])
    | None => (Fault, [])
    end
  else if key =? chr "o" then
    match arg with
    | Some s =>
        (Val (Some (-1)),
         [ev_errmsg ("bad VID header offset: " ++ dq ++ "%s" ++ dq) [arg_s s]])
    | None => (Fault, [])
    end
  else if key =? chr "h" then
    (Exit 0,
     [ev_fprintf_stderr "%s\n\n" [arg_s doc];
      ev_fprintf_stderr "%s\n\n" [arg_s usage];
      ev_fprintf_stderr "%s\n" [arg_s optionsstr]])
  else if key =? chr "V" then
    (Exit 0, [ev_fprintf_stderr "%s\n" [arg_s PROGRAM_VERSION]])
  else if key =? chr ":" then
    (Val (Some (-1)), [ev_errmsg "parameter is missing" []])
  else (Exit (-1), [ev_fprintf_stderr "Use -h for help\n" []]).

Definition is_stdout (e : event) : bool :=
  match e with
  | ev_printf _ _ | ev_ubiutils_print_bytes _ _ => true
  | _ => false
  end.

Definition is_open (e : event) : bool :=
  match e with
  | ev_libubi_open _ => true
  | _ => false
  end.

(** [myargs] as a command line with the options [toks] and the single
    operand [nd] leaves it. *)
Definition parsed_args (UBI_DEV_NUM_AUTO : Z) (toks : list token)
    (nd : string) : args :=
  {| devn := last_value "d" toks UBI_DEV_NUM_AUTO;
     mtdn := last_value "m" toks (-1);
     vidoffs := last_value "o" toks 0;
     node := Some nd |}.

(** The command lines [parse_opt] returns 0 for. *)
Definition well_formed (posixly_correct : bool) (argv : list string)
  : Prop :=
  forallb accepted (options_of posixly_correct argv) = true
  /\ List.length (operands_of posixly_correct argv) = 1%nat
  /\ existsb (is_key "m") (options_of posixly_correct argv) = true.

(** The attach request [main] builds from [myargs]. *)
Definition request (a : args) : ubi_attach_request :=
  {| dev_num := devn a; mtd_num := mtdn a; vid_hdr_offset := vidoffs a |}.

(** What [main] prints on stdout for the device described by [di]. *)
Definition report (di : ubi_dev_info) : list event :=
  [ ev_printf "UBI device number %d, total %d LEBs ("
              [arg_d (info_dev_num di); arg_d (total_lebs di)];
    ev_ubiutils_print_bytes (total_bytes di) 0;
    ev_printf "), available %d LEBs (" [arg_d (avail_lebs di)];
    ev_ubiutils_print_bytes (avail_bytes di) 0;
    ev_printf "), LEB size " [];
    ev_ubiutils_print_bytes (leb_size di) 1;
    ev_printf "\n" [] ].

(** The runs of [main] once [parse_opt] has returned 0 with [a] in
    [myargs]: the value [main] returns and what it did, one case for each
    place where the sequence of calls can stop. *)
Inductive attach_run (a : args) : Z -> list event -> Prop :=
| open_failed :
    attach_run a (-1)
      [ ev_libubi_open NULL;
        ev_errmsg "cannot open libubi" [];
        ev_perror "libubi_open" ]
| get_info_failed h err ui :
    h <> NULL -> err <> 0 ->
    attach_run a (-1)
      [ ev_libubi_open h;
        ev_ubi_get_info h err ui;
        ev_errmsg "cannot get UBI information" [];
        ev_perror "ubi_get_info";
        ev_libubi_close h ]
| not_supported h ui :
    h <> NULL -> ctrl_major ui = -1 ->
    attach_run a (-1)
      [ ev_libubi_open h;
        ev_ubi_get_info h 0 ui;
        ev_errmsg "MTD attach/detach feature is not supported by your kernel" [];
        ev_libubi_close h ]
| attach_failed h ui err req' :
    h <> NULL -> ctrl_major ui <> -1 -> err <> 0 ->
    attach_run a (-1)
      [ ev_libubi_open h;
        ev_ubi_get_info h 0 ui;
        ev_ubi_attach_mtd h (node a) (request a) err req';
        ev_errmsg "cannot attach mtd%d" [arg_d (mtdn a)];
        ev_perror "ubi_attach_mtd";
        ev_libubi_close h ]
| get_dev_info_failed h ui req' err di :
    h <> NULL -> ctrl_major ui <> -1 -> err <> 0 ->
    attach_run a (-1)
      [ ev_libubi_open h;
        ev_ubi_get_info h 0 ui;
        ev_ubi_attach_mtd h (node a) (request a) 0 req';
        ev_ubi_get_dev_info1 h (dev_num req') err di;
        ev_errmsg "cannot get information about newly created UBI device" [];
        ev_perror "ubi_get_dev_info1";
        ev_libubi_close h ]
| attached h ui req' di :
    h <> NULL -> ctrl_major ui <> -1 ->
    attach_run a 0
      ([ ev_libubi_open h;
         ev_ubi_get_info h 0 ui;
         ev_ubi_attach_mtd h (node a) (request a) 0 req';
         ev_ubi_get_dev_info1 h (dev_num req') 0 di ]
       ++ report di ++ [ ev_libubi_close h ]).

(** The scanner permutes the words and moves [optind] forward only. *)
Definition scanner_le (d d' : getopt_data) : Prop :=
  List.length (gd_argv d') = List.length (gd_argv d)
  /\ (List.length (gd_done d) <= List.length (gd_done d'))%nat.

(** The state of the scanner holds C strings only. *)
Definition gd_nul_free (d : getopt_data) : Prop :=
  nul_free (gd_nextchar d) /\ Forall nul_free (gd_pending d).

Definition optarg_nul_free (d : getopt_data) : Prop :=
  forall s, optarg d = Some s -> nul_free s.

(** ** A libubi to run examples on

    A world is a record of what the calls are to return. *)

Record script : Type := {
  open_returns : libubi_t;
  get_info_returns : Z * ubi_info;
  attach_returns : Z * Z;
  get_dev_info_returns : Z * ubi_dev_info
}.

(** [attach_returns] is the value returned with the device number the
    library leaves in the request. *)
Definition scripted_libubi : libubi_impl script :=
  {| impl_libubi_open := fun w => (open_returns w, w);
     impl_ubi_get_info := fun _ w => (get_info_returns w, w);
     impl_ubi_attach_mtd := fun _ _ req w =>
       ((fst (attach_returns w),
         {| dev_num := snd (attach_returns w); mtd_num := mtd_num req;
            vid_hdr_offset := vid_hdr_offset req |}), w);
     impl_ubi_get_dev_info1 := fun _ _ w => (get_dev_info_returns w, w);
     impl_libubi_close := fun _ w => w |}.

Definition ubi3 : ubi_dev_info :=
  {| info_dev_num := 3; total_lebs := 1024; avail_lebs := 1000;
     total_bytes := 132120576; avail_bytes := 129024000;
     leb_size := 129024 |}.

(** Everything succeeds and the new device is number 3. *)
Definition all_well : script :=
  {| open_returns := 1;
     get_info_returns := (0, {| ctrl_major := 10 |});
     attach_returns := (0, 3);
     get_dev_info_returns := (0, ubi3) |}.

(** A kernel without the attach feature. *)
Definition old_kernel : script :=
  {| open_returns := 1;
     get_info_returns := (0, {| ctrl_major := -1 |});
     attach_returns := (0, 3);
     get_dev_info_returns := (0, ubi3) |}.

(** The attach request is refused. *)
Definition attach_refused : script :=
  {| open_returns := 1;
     get_info_returns := (0, {| ctrl_major := 10 |});
     attach_returns := (-1, 3);
     get_dev_info_returns := (0, ubi3) |}.

(** The values [getopt_long] returns to [parse_opt]: ['?'], or one of the
    five option characters; [d] and [m] always come with an argument, [h]
    and [V] never, and a colon is not among them. *)
Definition scanner_result (key : Z) (arg : option string) : Prop :=
  key = QUESTION
  \/ ((key = chr "d" \/ key = chr "m") /\ exists s, arg = Some s)
  \/ key = chr "o"
  \/ ((key = chr "h" \/ key = chr "V") /\ arg = None).

(** What [parse_opt] does when its loop ends with [r] at an option that
    is not accepted: it returns the value, or the process has ended. *)
Definition loop_exit (r : result (option Z)) : result Z :=
  match r with
  | Val (Some v) => Val v
  | Val None => Val 0
  | Exit n => Exit n
  | Fault => Fault
  | OutOfFuel => OutOfFuel
  end.

(** A decimal numeral as one types it: digits only, at least one, and no
    leading zero unless it is the numeral 0. *)
Definition is_digit (c : ascii) : bool :=
  Nat.leb 48 (nat_of_ascii c) && Nat.leb (nat_of_ascii c) 57.

Fixpoint all_digits (s : string) : bool :=
  match s with
  | String c s' => is_digit c && all_digits s'
  | EmptyString => true
  end.

Definition decimal_numeral (s : string) : bool :=
  match s with
  | EmptyString => false
  | String "0" EmptyString => true
  | String "0" _ => false
  | _ => all_digits s
  end.

(** The number a string of digits denotes in base ten, on top of [acc]. *)
Fixpoint decimal_value (s : string) (acc : Z) : Z :=
  match s with
  | String c s' =>
      decimal_value s' (acc * 10 + (Z.of_nat (nat_of_ascii c) - 48))
  | EmptyString => acc
  end.

(** The control device cannot be opened. *)
Definition cannot_open : script :=
  {| open_returns := NULL;
     get_info_returns := (0, {| ctrl_major := 10 |});
     attach_returns := (0, 3);
     get_dev_info_returns := (0, ubi3) |}.

(** The runs of [main] on a library [lib], once [parse_opt] has returned 0
    with [a] in [myargs] and the world is [w]: each call is made on the
    world the call before it left, what is logged for it is what [lib]
    returned, and the sequence goes on exactly as long as the calls
    succeed. The last argument is the world at the end. *)
Inductive linear_run {world : Type} (lib : libubi_impl world) (a : args)
    (w : world) : Z -> list event -> world -> Prop :=
| stops_at_open w1 :
    impl_libubi_open lib w = (NULL, w1) ->
    linear_run lib a w (-1)
      [ ev_libubi_open NULL;
        ev_errmsg "cannot open libubi" [];
        ev_perror "libubi_open" ]
      w1
| stops_at_get_info h w1 err ui w2 :
    impl_libubi_open lib w = (h, w1) -> h <> NULL ->
    impl_ubi_get_info lib h w1 = ((err, ui), w2) -> err <> 0 ->
    linear_run lib a w (-1)
      [ ev_libubi_open h;
        ev_ubi_get_info h err ui;
        ev_errmsg "cannot get UBI information" [];
        ev_perror "ubi_get_info";
        ev_libubi_close h ]
      (impl_libubi_close lib h w2)
| stops_at_ctrl_major h w1 ui w2 :
    impl_libubi_open lib w = (h, w1) -> h <> NULL ->
    impl_ubi_get_info lib h w1 = ((0, ui), w2) -> ctrl_major ui = -1 ->
    linear_run lib a w (-1)
      [ ev_libubi_open h;
        ev_ubi_get_info h 0 ui;
        ev_errmsg "MTD attach/detach feature is not supported by your kernel" [];
        ev_libubi_close h ]
      (impl_libubi_close lib h w2)
| stops_at_attach h w1 ui w2 err req' w3 :
    impl_libubi_open lib w = (h, w1) -> h <> NULL ->
    impl_ubi_get_info lib h w1 = ((0, ui), w2) -> ctrl_major ui <> -1 ->
    impl_ubi_attach_mtd lib h (node a) (request a) w2 = ((err, req'), w3) ->
    err <> 0 ->
    linear_run lib a w (-1)
      [ ev_libubi_open h;
        ev_ubi_get_info h 0 ui;
        ev_ubi_attach_mtd h (node a) (request a) err req';
        ev_errmsg "cannot attach mtd%d" [arg_d (mtdn a)];
        ev_perror "ubi_attach_mtd";
        ev_libubi_close h ]
      (impl_libubi_close lib h w3)
| stops_at_get_dev_info h w1 ui w2 req' w3 err di w4 :
    impl_libubi_open lib w = (h, w1) -> h <> NULL ->
    impl_ubi_get_info lib h w1 = ((0, ui), w2) -> ctrl_major ui <> -1 ->
    impl_ubi_attach_mtd lib h (node a) (request a) w2 = ((0, req'), w3) ->
    impl_ubi_get_dev_info1 lib h (dev_num req') w3 = ((err, di), w4) ->
    err <> 0 ->
    linear_run lib a w (-1)
      [ ev_libubi_open h;
        ev_ubi_get_info h 0 ui;
        ev_ubi_attach_mtd h (node a) (request a) 0 req';
        ev_ubi_get_dev_info1 h (dev_num req') err di;
        ev_errmsg "cannot get information about newly created UBI device" [];
        ev_perror "ubi_get_dev_info1";
        ev_libubi_close h ]
      (impl_libubi_close lib h w4)
| goes_through h w1 ui w2 req' w3 di w4 :
    impl_libubi_open lib w = (h, w1) -> h <> NULL ->
    impl_ubi_get_info lib h w1 = ((0, ui), w2) -> ctrl_major ui <> -1 ->
    impl_ubi_attach_mtd lib h (node a) (request a) w2 = ((0, req'), w3) ->
    impl_ubi_get_dev_info1 lib h (dev_num req') w3 = ((0, di), w4) ->
    linear_run lib a w 0
      ([ ev_libubi_open h;
         ev_ubi_get_info h 0 ui;
         ev_ubi_attach_mtd h (node a) (request a) 0 req';
         ev_ubi_get_dev_info1 h (dev_num req') 0 di ]
       ++ report di ++ [ ev_libubi_close h ])
      (impl_libubi_close lib h w4).

(** * Properties *)

(** ** The scanner *)

Lemma skip_nonoptions_measure (pending skipped p s : list string) :
  skip_nonoptions pending skipped = (p, s) ->
  (list_sum (map (fun a => S (String.length a)) p)
   <= list_sum (map (fun a => S (String.length a)) pending))%nat.
Proof.
  revert skipped. induction pending as [|a rest IH]; intros skipped H.
  - simpl in H. inversion H. simpl. lia.
  - simpl in H. destruct (NONOPTION_P a).
    + apply IH in H. simpl. lia.
    + inversion H. lia.
Qed.

Lemma skip_nonoptions_head (pending skipped : list string) a rest s :
  skip_nonoptions pending skipped = (a :: rest, s) -> NONOPTION_P a = false.
Proof.
  revert skipped. induction pending as [|b l IH]; intros skipped H.
  - discriminate.
  - simpl in H. destruct (NONOPTION_P b) eqn:E.
    + eauto.
    + inversion H; subst. exact E.
Qed.

Lemma process_short_option_measure c rest d key diag d' :
  process_short_option optstring c rest d = (key, diag, d') ->
  (getopt_measure d'
   <= String.length rest
      + list_sum (map (fun a => S (String.length a)) (gd_pending d)))%nat.
Proof.
  unfold process_short_option, getopt_measure. intros H.
  destruct (optstring_find optstring c) as [[|]|];
    destruct (Ascii.eqb c ":" || Ascii.eqb c ";");
    try (inversion H; subst; simpl; lia).
  destruct rest as [|r0 rest].
  - destruct (gd_pending d) as [|a more];
      inversion H; subst; simpl; lia.
  - inversion H; subst; simpl; lia.
Qed.

Lemma process_long_option_measure w d key diag d' :
  process_long_option long_options w d = (key, diag, d') ->
  gd_nextchar d = "" ->
  (getopt_measure d'
   <= list_sum (map (fun a => S (String.length a)) (gd_pending d)))%nat.
Proof.
  unfold process_long_option, getopt_measure. intros H N.
  destruct (split_name w) as [nm arg].
  destruct (lookup_long long_options nm) as [p| |];
    try (inversion H; subst; rewrite N; simpl; lia).
  destruct arg as [a|].
  - destruct (has_arg p =? 0); inversion H; subst; try rewrite N; simpl; lia.
  - destruct (has_arg p =? 1).
    + destruct (gd_pending d) as [|a rest] eqn:P;
        inversion H; subst; try rewrite N; try rewrite P; simpl; lia.
    + inversion H; subst; rewrite N; simpl; lia.
Qed.

(** A call of [getopt_long] that returns an option makes progress. *)
Lemma getopt_long_r_measure d key diag d' :
  getopt_long_r optstring long_options d = (key, diag, d') ->
  key <> -1 ->
  (getopt_measure d' < getopt_measure d)%nat.
Proof.
  unfold getopt_long_r. intros H K.
  destruct (gd_argv d) as [|x l]; [inversion H; subst; congruence|].
  destruct (gd_nextchar (set_optarg_null d)) as [|c rest] eqn:N.
  - simpl in N.
    destruct (if gd_posixly_correct (set_optarg_null d)
              then (gd_pending (set_optarg_null d),
                    gd_skipped (set_optarg_null d))
              else skip_nonoptions (gd_pending (set_optarg_null d))
                     (gd_skipped (set_optarg_null d)))
      as [pending skipped] eqn:E.
    assert (P : (list_sum (map (fun a => S (String.length a)) pending)
                 <= list_sum (map (fun a => S (String.length a))
                                  (gd_pending d)))%nat).
    { simpl in E. destruct (gd_posixly_correct d).
      - inversion E; subst. lia.
      - eapply skip_nonoptions_measure; eauto. }
    destruct pending as [|a more]; [inversion H; subst; congruence|].
    destruct (String.eqb a "--"); [inversion H; subst; congruence|].
    destruct (NONOPTION_P a); [inversion H; subst; congruence|].
    destruct a as [|a0 a]; [inversion H; subst; congruence|].
    destruct (Ascii.eqb a0 "-") eqn:A0.
    + apply Ascii.eqb_eq in A0; subst a0.
      destruct a as [|a1 a]; [inversion H; subst; congruence|].
      destruct (Ascii.eqb a1 "-") eqn:A1.
      * apply Ascii.eqb_eq in A1; subst a1.
        apply process_long_option_measure in H; [|reflexivity].
        unfold getopt_measure at 2. rewrite N. simpl in *. lia.
      * assert (H' : process_short_option optstring a1 a
                       {| gd_done := gd_done (set_optarg_null d)
                                     ++ [String "-" (String a1 a)];
                          gd_skipped := skipped; gd_pending := more;
                          gd_nextchar := ""; optarg := None;
                          gd_posixly_correct :=
                            gd_posixly_correct (set_optarg_null d) |}
                     = (key, diag, d')).
        { rewrite <- H. destruct a1 as [[] [] [] [] [] [] [] []];
            try reflexivity. discriminate. }
        apply process_short_option_measure in H'.
        unfold getopt_measure at 2. rewrite N. simpl in *. lia.
    + destruct a0 as [[] [] [] [] [] [] [] []];
        try (inversion H; subst; congruence); discriminate.
  - apply process_short_option_measure in H.
    unfold getopt_measure at 2. simpl in N. rewrite N. simpl in *. lia.
Qed.

(** The scanner prints only when it returns ['?']. *)
Lemma process_short_option_diag c rest d key m d' :
  process_short_option optstring c rest d = (key, Some m, d') ->
  key = QUESTION.
Proof.
  unfold process_short_option. intros H.
  destruct (optstring_find optstring c) as [[|]|];
    destruct (Ascii.eqb c ":" || Ascii.eqb c ";");
    try (inversion H; subst; reflexivity).
  destruct rest; [destruct (gd_pending d)|]; inversion H; reflexivity.
Qed.

Lemma process_long_option_diag w d key m d' :
  process_long_option long_options w d = (key, Some m, d') ->
  key = QUESTION.
Proof.
  unfold process_long_option. intros H.
  destruct (split_name w) as [nm arg].
  destruct (lookup_long long_options nm) as [p| |];
    try (inversion H; subst; reflexivity).
  destruct arg.
  - destruct (has_arg p =? 0); inversion H; reflexivity.
  - destruct (has_arg p =? 1); [destruct (gd_pending d)|];
      inversion H; reflexivity.
Qed.

Lemma getopt_long_r_diag d key m d' :
  getopt_long_r optstring long_options d = (key, Some m, d') ->
  key = QUESTION.
Proof.
  unfold getopt_long_r. intros H.
  destruct (gd_argv d); [discriminate|].
  destruct (gd_nextchar (set_optarg_null d)).
  - destruct (if gd_posixly_correct (set_optarg_null d)
              then (gd_pending (set_optarg_null d),
                    gd_skipped (set_optarg_null d))
              else skip_nonoptions (gd_pending (set_optarg_null d))
                     (gd_skipped (set_optarg_null d)))
      as [pending skipped].
    destruct pending as [|a more]; [discriminate|].
    destruct (String.eqb a "--"); [discriminate|].
    destruct (NONOPTION_P a); [discriminate|].
    destruct a as [|a0 a]; [discriminate|].
    destruct (Ascii.eqb a0 "-") eqn:A0.
    + apply Ascii.eqb_eq in A0; subst a0.
      destruct a as [|a1 a]; [discriminate|].
      destruct (Ascii.eqb a1 "-") eqn:A1.
      * apply Ascii.eqb_eq in A1; subst a1.
        eapply process_long_option_diag; eauto.
      * eapply process_short_option_diag with (c := a1).
        rewrite <- H. destruct a1 as [[] [] [] [] [] [] [] []];
          try reflexivity. discriminate.
    + destruct a0 as [[] [] [] [] [] [] [] []]; discriminate.
  - eapply process_short_option_diag; eauto.
Qed.

Lemma accepted_key (t : token) :
  accepted t = true ->
  fst (fst t) = chr "d" \/ fst (fst t) = chr "m" \/ fst (fst t) = chr "o".
Proof.
  destruct t as [[key [s|]] diag]; cbn; [|discriminate].
  destruct (key =? chr "d") eqn:Kd; [apply Z.eqb_eq in Kd; auto|].
  destruct (key =? chr "m") eqn:Km; [apply Z.eqb_eq in Km; auto|].
  destruct (key =? chr "o") eqn:Ko; [apply Z.eqb_eq in Ko; auto|].
  discriminate.
Qed.

Lemma accepted_quiet d key diag d' :
  getopt_long_r optstring long_options d = (key, diag, d') ->
  accepted (key, optarg d', diag) = true ->
  diag = None.
Proof.
  intros H A. destruct diag as [m|]; [|reflexivity].
  apply getopt_long_r_diag in H. apply accepted_key in A. cbn in A.
  subst key. destruct A as [A|[A|A]]; discriminate.
Qed.

Lemma done_quiet d diag d' :
  getopt_long_r optstring long_options d = (-1, diag, d') ->
  diag = None.
Proof.
  intros H. destruct diag as [m|]; [|reflexivity].
  apply getopt_long_r_diag in H. discriminate.
Qed.


Lemma scanner_le_refl d : scanner_le d d.
Proof. split; auto. Qed.

Lemma scanner_le_trans d1 d2 d3 :
  scanner_le d1 d2 -> scanner_le d2 d3 -> scanner_le d1 d3.
Proof. unfold scanner_le. intros [] []. split; lia. Qed.

Lemma skip_nonoptions_app (pending skipped p s : list string) :
  skip_nonoptions pending skipped = (p, s) ->
  s ++ p = skipped ++ pending.
Proof.
  revert skipped. induction pending as [|a rest IH]; intros skipped H.
  - inversion H. reflexivity.
  - simpl in H. destruct (NONOPTION_P a).
    + apply IH in H. rewrite H, <- app_assoc. reflexivity.
    + inversion H. reflexivity.
Qed.

Ltac scanner_arith :=
  unfold scanner_le, gd_argv, set_optarg_null;
  cbn [gd_done gd_skipped gd_pending];
  repeat rewrite ?length_app, ?length_cons, ?length_nil;
  cbn [List.length]; lia.

Lemma process_short_option_le c rest d key diag d' :
  process_short_option optstring c rest d = (key, diag, d') ->
  scanner_le d d'.
Proof.
  unfold process_short_option. intros H.
  destruct (optstring_find optstring c) as [[|]|];
    destruct (Ascii.eqb c ":" || Ascii.eqb c ";");
    try (inversion H; subst; scanner_arith).
  destruct rest; [destruct (gd_pending d) eqn:P|];
    inversion H; subst; unfold scanner_le, gd_argv; try rewrite P;
    scanner_arith.
Qed.

Lemma process_long_option_le w d key diag d' :
  process_long_option long_options w d = (key, diag, d') ->
  scanner_le d d'.
Proof.
  unfold process_long_option. intros H.
  destruct (split_name w) as [nm arg].
  destruct (lookup_long long_options nm) as [p| |];
    try (inversion H; subst; scanner_arith).
  destruct arg.
  - destruct (has_arg p =? 0); inversion H; subst; scanner_arith.
  - destruct (has_arg p =? 1); [destruct (gd_pending d) eqn:P|];
      inversion H; subst; unfold scanner_le, gd_argv; try rewrite P;
      scanner_arith.
Qed.

Lemma getopt_long_r_le d key diag d' :
  getopt_long_r optstring long_options d = (key, diag, d') ->
  scanner_le d d'.
Proof.
  unfold getopt_long_r. intros H.
  destruct (gd_argv d) eqn:V; [inversion H; apply scanner_le_refl|].
  clear V.
  destruct (gd_nextchar (set_optarg_null d)).
  - destruct (if gd_posixly_correct (set_optarg_null d)
              then (gd_pending (set_optarg_null d),
                    gd_skipped (set_optarg_null d))
              else skip_nonoptions (gd_pending (set_optarg_null d))
                     (gd_skipped (set_optarg_null d)))
      as [pending skipped] eqn:E.
    assert (P : skipped ++ pending = gd_skipped d ++ gd_pending d).
    { simpl in E. destruct (gd_posixly_correct d).
      - inversion E; reflexivity.
      - eapply skip_nonoptions_app; eauto. }
    apply (f_equal (@List.length string)) in P.
    rewrite !length_app in P.
    destruct pending as [|a more];
      [inversion H; subst; cbn [List.length] in P; scanner_arith|].
    cbn [List.length] in P.
    destruct (String.eqb a "--"); [inversion H; subst; scanner_arith|].
    destruct (NONOPTION_P a); [inversion H; subst; scanner_arith|].
    destruct a as [|a0 a]; [inversion H; subst; scanner_arith|].
    assert (T : forall e, scanner_le
                  {| gd_done := gd_done (set_optarg_null d)
                                ++ [String a0 a];
                     gd_skipped := skipped; gd_pending := more;
                     gd_nextchar := ""; optarg := None;
                     gd_posixly_correct :=
                       gd_posixly_correct (set_optarg_null d) |} e ->
                scanner_le d e).
    { intros e. apply scanner_le_trans. scanner_arith. }
    destruct (Ascii.eqb a0 "-") eqn:A0.
    + apply Ascii.eqb_eq in A0; subst a0.
      destruct a as [|a1 a]; [inversion H; subst; scanner_arith|].
      destruct (Ascii.eqb a1 "-") eqn:A1.
      * apply Ascii.eqb_eq in A1; subst a1.
        apply T. eapply process_long_option_le; eauto.
      * apply T. eapply process_short_option_le with (c := a1).
        rewrite <- H. destruct a1 as [[] [] [] [] [] [] [] []];
          try reflexivity. discriminate.
    + destruct a0 as [[] [] [] [] [] [] [] []];
        try (inversion H; subst; scanner_arith); discriminate.
  - apply scanner_le_trans with (set_optarg_null d); [scanner_arith|].
    eapply process_short_option_le; eauto.
Qed.

Lemma getopt_all_le (fuel : nat) :
  forall d toks dfin,
  getopt_all fuel d = (toks, dfin) -> scanner_le d dfin.
Proof.
  induction fuel as [|fuel IH]; intros d toks dfin G; cbn [getopt_all] in G.
  - inversion G. apply scanner_le_refl.
  - destruct (getopt_long_r optstring long_options d)
      as [[key diag] d'] eqn:E.
    apply getopt_long_r_le in E.
    destruct (key =? -1).
    + inversion G; subst. exact E.
    + destruct (getopt_all fuel d') as [l e] eqn:G'.
      inversion G; subst. eapply scanner_le_trans; eauto.
Qed.

(** ** Numbers *)

Lemma skip_spaces_length (s : string) :
  String.length s
  = (fst (skip_spaces s) + String.length (snd (skip_spaces s)))%nat.
Proof.
  induction s as [|c s IH]; [reflexivity|].
  cbn [skip_spaces]. destruct (isspace c); [|reflexivity].
  destruct (skip_spaces s) as [n r]. cbn in *. lia.
Qed.

Lemma scan_digits_length (base : Z) (s : string) :
  forall acc, (snd (scan_digits base s acc) <= String.length s)%nat.
Proof.
  induction s as [|c s IH]; intros acc; cbn [scan_digits]; [cbn; lia|].
  destruct (digit_value c) as [d|]; [|cbn; lia].
  destruct (d <? base); [|cbn; lia].
  specialize (IH (acc * base + d)).
  destruct (scan_digits base s (acc * base + d)) as [v n]. cbn in *. lia.
Qed.

(** [endp] points into the string or at its end. *)
Lemma strtoul_endp (s : string) :
  (snd (strtoul s) <= String.length s)%nat.
Proof.
  unfold strtoul. pose proof (skip_spaces_length s) as L1.
  destruct (skip_spaces s) as [nsp s1]. cbn [fst snd] in L1.
  assert (L2 : exists negative nsg s2,
             match s1 with
             | String "-" r => (true, 1%nat, r)
             | String "+" r => (false, 1%nat, r)
             | _ => (false, 0%nat, s1)
             end = (negative, nsg, s2)
             /\ String.length s1 = (nsg + String.length s2)%nat).
  { destruct s1 as [|c r]; [eexists _, _, _; split; reflexivity|].
    destruct c as [[] [] [] [] [] [] [] []];
      eexists _, _, _; split; reflexivity. }
  destruct L2 as (negative & nsg & s2 & -> & L2).
  assert (L3 : exists base npre s3,
             match s2 with
             | String "0" (String x r) =>
                 if is_x x then (16, 2%nat, r) else (8, 0%nat, s2)
             | String "0" EmptyString => (8, 0%nat, s2)
             | _ => (10, 0%nat, s2)
             end = (base, npre, s3)
             /\ String.length s2 = (npre + String.length s3)%nat
             /\ (npre = 0 \/ npre = 2)%nat).
  { destruct s2 as [|c r]; [eexists _, _, _; split; [reflexivity|auto]|].
    destruct c as [[] [] [] [] [] [] [] []];
      try (eexists _, _, _; split; [reflexivity|auto]).
    destruct r as [|x r]; [eexists _, _, _; split; [reflexivity|auto]|].
    destruct (is_x x); eexists _, _, _; split; try reflexivity; auto. }
  destruct L3 as (base & npre & s3 & -> & L3 & N).
  pose proof (scan_digits_length base s3 0) as L4.
  destruct (scan_digits base s3 0) as [i nd]. cbn [snd] in L4.
  destruct nd as [|nd].
  - destruct N as [->| ->]; cbn; lia.
  - destruct (ULONG_MAX <? i); [cbn; lia|].
    destruct negative; cbn; lia.
Qed.

Lemma deref_past_end (s : string) :
  forall i, nul_free s -> deref s i = 0 -> (String.length s <= i)%nat.
Proof.
  unfold deref. induction s as [|c s IH]; intros i N D; [cbn; lia|].
  destruct N as [N1 N2]. destruct i as [|i].
  - cbn in D. unfold chr in D. lia.
  - cbn in *. apply IH in D; [lia|exact N2].
Qed.

Lemma deref_at_end (s : string) : deref s (String.length s) = 0.
Proof.
  unfold deref. induction s as [|c s IH]; [reflexivity|exact IH].
Qed.

(** For a C string, [whole_number] says that [strtoul] consumed all of it
    and that there was something to consume. *)
Lemma whole_number_spec (s : string) :
  nul_free s ->
  whole_number s = true
  <-> snd (strtoul s) = String.length s /\ snd (strtoul s) <> 0%nat.
Proof.
  intros N. unfold whole_number. pose proof (strtoul_endp s) as B.
  destruct (strtoul s) as [v endp]. cbn [snd] in *.
  rewrite andb_true_iff, negb_true_iff, Z.eqb_eq, Nat.eqb_neq.
  split.
  - intros [D E]. apply deref_past_end in D; [|exact N]. split; lia.
  - intros [D E]. subst endp. split; [apply deref_at_end|exact E].
Qed.

(** ** The words of the command line are C strings *)

Lemma split_name_nul_free (w : string) :
  forall n a, split_name w = (n, Some a) -> nul_free w -> nul_free a.
Proof.
  induction w as [|c w IH]; intros n a E N; [discriminate|].
  destruct N as [N1 N2]. cbn [split_name] in E.
  destruct (split_name w) as [n' a'] eqn:S.
  assert (X : (c = "="%char /\ a = w) \/ a' = Some a).
  { destruct c as [[] [] [] [] [] [] [] []];
      try (right; inversion E; reflexivity).
    left. split; [reflexivity|]. inversion E. reflexivity. }
  destruct X as [[_ ->]|X]; [exact N2|].
  subst a'. eapply IH; eauto.
Qed.

Lemma skip_nonoptions_nul_free (pending skipped p s : list string) :
  skip_nonoptions pending skipped = (p, s) ->
  Forall nul_free pending -> Forall nul_free p.
Proof.
  revert skipped. induction pending as [|a rest IH]; intros skipped H F.
  - inversion H. constructor.
  - simpl in H. inversion F; subst. destruct (NONOPTION_P a).
    + eauto.
    + inversion H; subst. exact F.
Qed.

Lemma process_short_option_nul_free c rest d key diag d' :
  process_short_option optstring c rest d = (key, diag, d') ->
  nul_free rest -> Forall nul_free (gd_pending d) ->
  gd_nul_free d' /\ optarg_nul_free d'.
Proof.
  unfold process_short_option, gd_nul_free, optarg_nul_free.
  intros H N F.
  destruct (optstring_find optstring c) as [[|]|];
    destruct (Ascii.eqb c ":" || Ascii.eqb c ";");
    try (inversion H; subst; cbn; repeat split; auto; discriminate).
  destruct rest as [|r0 rest].
  - destruct (gd_pending d) as [|a more];
      inversion H; subst; cbn; repeat split; auto; try discriminate;
      inversion F; subst; auto.
    intros s E. inversion E; subst. assumption.
  - inversion H; subst; cbn. repeat split; auto.
    intros s E. inversion E; subst. exact N.
Qed.

Lemma process_long_option_nul_free w d key diag d' :
  process_long_option long_options w d = (key, diag, d') ->
  nul_free w -> gd_nul_free d -> optarg d = None ->
  gd_nul_free d' /\ optarg_nul_free d'.
Proof.
  unfold process_long_option, gd_nul_free, optarg_nul_free.
  intros H N [G1 G2] O.
  destruct (split_name w) as [nm arg] eqn:S.
  destruct (lookup_long long_options nm) as [p| |];
    try (inversion H; subst; repeat split; auto; rewrite O; discriminate).
  destruct arg as [a|].
  - destruct (has_arg p =? 0); inversion H; subst; cbn;
      repeat split; auto; try (rewrite O; discriminate).
    intros s E. inversion E; subst. eapply split_name_nul_free; eauto.
  - destruct (has_arg p =? 1).
    + destruct (gd_pending d) as [|a rest] eqn:P;
        inversion H; subst; cbn; try rewrite P;
        repeat split; auto; try (rewrite O; discriminate);
        inversion G2; subst; auto.
      intros s E. inversion E; subst. assumption.
    + inversion H; subst. repeat split; auto. rewrite O; discriminate.
Qed.

Lemma getopt_long_r_nul_free d key diag d' :
  getopt_long_r optstring long_options d = (key, diag, d') ->
  gd_nul_free d ->
  gd_nul_free d' /\ (key <> -1 -> optarg_nul_free d').
Proof.
  unfold getopt_long_r. intros H [G1 G2].
  destruct (gd_argv d) eqn:V;
    [inversion H; subst; split; [split; auto|congruence]|].
  clear V.
  destruct (gd_nextchar (set_optarg_null d)) as [|c rest] eqn:NC.
  - destruct (if gd_posixly_correct (set_optarg_null d)
              then (gd_pending (set_optarg_null d),
                    gd_skipped (set_optarg_null d))
              else skip_nonoptions (gd_pending (set_optarg_null d))
                     (gd_skipped (set_optarg_null d)))
      as [pending skipped] eqn:E.
    assert (P : Forall nul_free pending).
    { simpl in E. destruct (gd_posixly_correct d).
      - inversion E; subst. exact G2.
      - eapply skip_nonoptions_nul_free; eauto. }
    destruct pending as [|a more];
      [inversion H; subst; split; [split; cbn; auto|congruence]|].
    inversion P as [|? ? Pa Pm]; subst.
    destruct (String.eqb a "--");
      [inversion H; subst; split; [split; cbn; auto|congruence]|].
    destruct (NONOPTION_P a);
      [inversion H; subst; split; [split; cbn; auto|congruence]|].
    destruct a as [|a0 a];
      [inversion H; subst; split; [split; cbn; auto|congruence]|].
    destruct Pa as [_ Pa].
    destruct (Ascii.eqb a0 "-") eqn:A0.
    + apply Ascii.eqb_eq in A0; subst a0.
      destruct a as [|a1 a];
        [inversion H; subst; split; [split; cbn; auto|congruence]|].
      destruct Pa as [_ Pa].
      destruct (Ascii.eqb a1 "-") eqn:A1.
      * apply Ascii.eqb_eq in A1; subst a1.
        apply process_long_option_nul_free in H; auto.
        -- destruct H; auto.
        -- split; cbn; auto.
      * assert (H' : process_short_option optstring a1 a
                       {| gd_done := gd_done (set_optarg_null d)
                                     ++ [String "-" (String a1 a)];
                          gd_skipped := skipped; gd_pending := more;
                          gd_nextchar := ""; optarg := None;
                          gd_posixly_correct :=
                            gd_posixly_correct (set_optarg_null d) |}
                     = (key, diag, d')).
        { rewrite <- H. destruct a1 as [[] [] [] [] [] [] [] []];
            try reflexivity. discriminate. }
        apply process_short_option_nul_free in H'; auto.
        destruct H'; auto.
    + destruct a0 as [[] [] [] [] [] [] [] []];
        try (inversion H; subst; split; [split; cbn; auto|congruence]);
        discriminate.
  - simpl in NC. rewrite NC in G1. destruct G1 as [_ G1].
    apply process_short_option_nul_free in H; auto.
    destruct H; auto.
Qed.

Lemma getopt_all_nul_free (fuel : nat) :
  forall d toks dfin,
  getopt_all fuel d = (toks, dfin) ->
  gd_nul_free d ->
  forall key s diag, In (key, Some s, diag) toks -> nul_free s.
Proof.
  induction fuel as [|fuel IH]; intros d toks dfin G N key s diag I;
    cbn [getopt_all] in G.
  - inversion G; subst. destruct I.
  - destruct (getopt_long_r optstring long_options d)
      as [[k dg] d'] eqn:E.
    apply getopt_long_r_nul_free in E; [|exact N]. destruct E as [E1 E2].
    destruct (k =? -1) eqn:K.
    + inversion G; subst. destruct I.
    + destruct (getopt_all fuel d') as [l e] eqn:G'.
      inversion G; subst. destruct I as [I|I].
      * inversion I; subst. apply E2; [|assumption].
        apply Z.eqb_neq. exact K.
      * eapply IH; eauto.
Qed.

(** The argument of an option of a command line of C strings is a C
    string. *)
Lemma options_nul_free (posixly_correct : bool) (argv : list string) :
  Forall nul_free argv ->
  forall key s diag,
  In (key, Some s, diag) (options_of posixly_correct argv) -> nul_free s.
Proof.
  intros F key s diag HI. unfold options_of, scan in HI.
  destruct (getopt_all _ _) as [toks dfin] eqn:G.
  eapply getopt_all_nul_free; [exact G| |exact HI].
  split; [exact I|]. cbn.
  destruct argv; [constructor|]. inversion F; assumption.
Qed.

Lemma getopt_all_diag (fuel : nat) :
  forall d toks dfin,
  getopt_all fuel d = (toks, dfin) ->
  forall key a m, In (key, a, Some m) toks -> key = QUESTION.
Proof.
  induction fuel as [|fuel IH]; intros d toks dfin G key a m HI;
    cbn [getopt_all] in G.
  - inversion G; subst. destruct HI.
  - destruct (getopt_long_r optstring long_options d)
      as [[k dg] d'] eqn:E.
    destruct (k =? -1).
    + inversion G; subst. destruct HI.
    + destruct (getopt_all fuel d') as [l e] eqn:G'.
      inversion G; subst. destruct HI as [HI|HI].
      * inversion HI; subst. eapply getopt_long_r_diag; eauto.
      * eapply IH; eauto.
Qed.

Lemma options_diag (posixly_correct : bool) (argv : list string) :
  forall key a m,
  In (key, a, Some m) (options_of posixly_correct argv) -> key = QUESTION.
Proof.
  intros key a m HI. unfold options_of, scan in HI.
  destruct (getopt_all _ _) as [toks dfin] eqn:G.
  eapply getopt_all_diag; eauto.
Qed.

(** ** The loop of [parse_opt] *)

Section Loop.

Variable world : Type.

(** One turn of the loop. *)
Lemma parse_opt_loop_step (fuel : nat) (st : state world) :
  parse_opt_loop (S fuel) st =
  let '(key, diag, d) := getopt_long_r optstring long_options (gd st) in
  let t : token := (key, optarg d, diag) in
  let lg := log st ++ diagnostics [t] in
  if key =? -1 then
    (Val None, Build_state (myargs st) d (the_world st) lg)
  else if accepted t then
    parse_opt_loop fuel
      (Build_state (store t (myargs st)) d (the_world st) lg)
  else
    (fst (rejection t),
     Build_state (store t (myargs st)) d (the_world st)
                 (lg ++ snd (rejection t))).
Proof.
  cbn [parse_opt_loop]. unfold bind at 1. unfold getopt_long at 1.
  destruct (getopt_long_r optstring long_options (gd st)) as [[key diag] d].
  cbv zeta.
  replace (match diag with
           | Some m => log st ++ [ev_getopt m]
           | None => log st
           end)
    with (log st ++ diagnostics [(key, optarg d, diag)])
    by (destruct diag; cbn; rewrite ?app_nil_r; reflexivity).
  change (diagnostics [(key, optarg d, diag)])
    with (diagnostics [((key, optarg d, diag) : token)]).
  set (lg := log st ++ diagnostics _). clearbody lg.
  unfold accepted, rejection, store.
  destruct (key =? -1) eqn:K1; [reflexivity|].
  destruct (key =? chr "d") eqn:Kd.
  { unfold bind at 1, gets at 1. cbn [gd optarg].
    destruct (optarg d) as [s|]; [|cbn; rewrite app_nil_r; reflexivity].
    unfold whole_number, number.
    destruct (strtoul s) as [v endp]. cbn.
    rewrite (Z.leb_antisym (to_int v) 0).
    destruct (deref s endp =? 0), (Nat.eqb endp 0), (to_int v <? 0);
      reflexivity. }
  destruct (key =? chr "m") eqn:Km.
  { unfold bind at 1, gets at 1. cbn [gd optarg].
    destruct (optarg d) as [s|]; [|cbn; rewrite app_nil_r; reflexivity].
    unfold whole_number, number.
    destruct (strtoul s) as [v endp]. cbn.
    rewrite (Z.leb_antisym (to_int v) 0).
    destruct (deref s endp =? 0), (Nat.eqb endp 0), (to_int v <? 0);
      reflexivity. }
  destruct (key =? chr "o") eqn:Ko.
  { unfold bind at 1, gets at 1. cbn [gd optarg].
    destruct (optarg d) as [s|]; [|cbn; rewrite app_nil_r; reflexivity].
    unfold whole_number, number.
    destruct (strtoul s) as [v endp]. cbn.
    rewrite (Z.ltb_antisym (to_int v) 0).
    destruct (deref s endp =? 0), (Nat.eqb endp 0), (to_int v <=? 0);
      reflexivity. }
  destruct (key =? chr "h") eqn:Kh;
    [destruct (optarg d); cbn; rewrite <- !app_assoc; reflexivity|].
  destruct (key =? chr "V") eqn:KV;
    [destruct (optarg d); reflexivity|].
  destruct (key =? chr ":") eqn:Kc;
    [destruct (optarg d); reflexivity|].
  destruct (optarg d); reflexivity.
Qed.

(** When every option is accepted the loop is left by [break], with the
    values of the options stored and nothing printed. *)
Lemma parse_opt_loop_completes (fuel : nat) :
  forall (st : state world) toks dfin,
  (getopt_measure (gd st) < fuel)%nat ->
  getopt_all fuel (gd st) = (toks, dfin) ->
  forallb accepted toks = true ->
  parse_opt_loop fuel st =
  (Val None,
   Build_state (store_all toks (myargs st)) dfin (the_world st) (log st)).
Proof.
  induction fuel as [|fuel IH]; intros st toks dfin M G A; [lia|].
  rewrite parse_opt_loop_step. cbn [getopt_all] in G.
  destruct (getopt_long_r optstring long_options (gd st))
    as [[key diag] d] eqn:E.
  cbv zeta.
  destruct (key =? -1) eqn:K1.
  - inversion G; subst. apply Z.eqb_eq in K1; subst key.
    apply done_quiet in E; subst diag. cbn. rewrite app_nil_r. reflexivity.
  - destruct (getopt_all fuel d) as [l e] eqn:G'.
    inversion G; subst. cbn [forallb] in A.
    apply andb_true_iff in A as [A1 A2]. rewrite A1.
    pose proof (accepted_quiet _ _ _ _ E A1); subst diag.
    assert (K : key <> -1) by (apply Z.eqb_neq; exact K1).
    pose proof (getopt_long_r_measure _ _ _ _ E K).
    erewrite IH; [|cbn [gd]; lia|cbn [gd]; exact G'|exact A2].
    cbn. rewrite app_nil_r. reflexivity.
Qed.

(** At the first option that is not accepted the loop ends as [rejection]
    says, the options before it stored. *)
Lemma parse_opt_loop_rejects (fuel : nat) :
  forall (st : state world) pre t post dfin,
  (getopt_measure (gd st) < fuel)%nat ->
  getopt_all fuel (gd st) = (pre ++ t :: post, dfin) ->
  forallb accepted pre = true ->
  accepted t = false ->
  exists d,
    parse_opt_loop fuel st =
    (fst (rejection t),
     Build_state (store_all (pre ++ [t]) (myargs st)) d (the_world st)
                 (log st ++ diagnostics [t] ++ snd (rejection t))).
Proof.
  induction fuel as [|fuel IH]; intros st pre t post dfin M G A R; [lia|].
  rewrite parse_opt_loop_step. cbn [getopt_all] in G.
  destruct (getopt_long_r optstring long_options (gd st))
    as [[key diag] d] eqn:E.
  cbv zeta.
  destruct (key =? -1) eqn:K1.
  - inversion G. destruct pre; discriminate.
  - destruct (getopt_all fuel d) as [l e] eqn:G'.
    assert (K : key <> -1) by (apply Z.eqb_neq; exact K1).
    pose proof (getopt_long_r_measure _ _ _ _ E K).
    destruct pre as [|t0 pre].
    + inversion G; subst. rewrite R. exists d. cbn.
      rewrite <- app_assoc. reflexivity.
    + inversion G; subst. cbn [forallb] in A.
      apply andb_true_iff in A as [A1 A2]. rewrite A1.
      pose proof (accepted_quiet _ _ _ _ E A1); subst diag.
      destruct (IH (Build_state (store (key, optarg d, None) (myargs st)) d
                      (the_world st)
                      (log st ++ diagnostics [(key, optarg d, None)]))
                  pre t post dfin) as [d' IH'];
        [cbn [gd]; lia|exact G'|exact A2|exact R|].
      exists d'. refine (eq_trans IH' _). cbn. rewrite app_nil_r. reflexivity.
Qed.

(** [myargs] after a scan holds the last value given to each option. *)
Lemma store_all_last (toks : list token) :
  forall a,
  devn (store_all toks a) = last_value "d" toks (devn a)
  /\ mtdn (store_all toks a) = last_value "m" toks (mtdn a)
  /\ vidoffs (store_all toks a) = last_value "o" toks (vidoffs a)
  /\ node (store_all toks a) = node a.
Proof.
  induction toks as [|[[key [s|]] diag] toks IH]; intros a.
  - cbn. auto.
  - change (store_all ((key, Some s, diag) :: toks) a)
      with (store_all toks (store (key, Some s, diag) a)).
    cbn [last_value].
    destruct (IH (store (key, Some s, diag) a)) as (D & Mt & V & N).
    rewrite D, Mt, V, N. unfold store.
    destruct (key =? chr "d") eqn:Kd.
    { apply Z.eqb_eq in Kd; subst key. cbn. auto. }
    destruct (key =? chr "m") eqn:Km.
    { apply Z.eqb_eq in Km; subst key. cbn. auto. }
    destruct (key =? chr "o") eqn:Ko.
    { apply Z.eqb_eq in Ko; subst key. cbn. auto. }
    cbn. auto.
  - change (store_all ((key, None, diag) :: toks) a)
      with (store_all toks a).
    cbn [last_value]. apply IH.
Qed.

Lemma last_value_absent (key : ascii) (toks : list token) :
  forall default,
  existsb (is_key key) toks = false ->
  last_value key toks default = default.
Proof.
  induction toks as [|[[k [s|]] diag] toks IH]; intros default E;
    cbn in *; [reflexivity| |];
    apply orb_false_iff in E as [E1 E2].
  - unfold is_key in E1. cbn in E1. rewrite E1. auto.
  - auto.
Qed.

Lemma last_value_mtdn (toks : list token) :
  forall default,
  forallb accepted toks = true ->
  existsb (is_key "m") toks = true ->
  0 <= last_value "m" toks default.
Proof.
  induction toks as [|[[k [s|]] diag] toks IH]; intros default A E;
    cbn [forallb existsb last_value] in *; try discriminate;
    apply andb_true_iff in A as [A1 A2].
  destruct (existsb (is_key "m") toks) eqn:X; [auto|].
  rewrite orb_false_r in E. unfold is_key in E. cbn in E. rewrite E.
  rewrite last_value_absent by exact X.
  apply Z.eqb_eq in E; subst k. cbn in A1.
  apply andb_true_iff in A1 as [_ A1]. apply Z.leb_le in A1. exact A1.
Qed.

Lemma first_rejected (l : list token) :
  forallb accepted l = true
  \/ exists pre t post,
      l = pre ++ t :: post
      /\ forallb accepted pre = true /\ accepted t = false.
Proof.
  induction l as [|t l IH]; [left; reflexivity|].
  destruct (accepted t) eqn:A.
  - destruct IH as [IH|(pre & t' & post & E & P & R)].
    + left. cbn. rewrite A, IH. reflexivity.
    + right. exists (t :: pre), t', post. subst l. cbn. rewrite A.
      auto.
  - right. exists [], t, l. auto.
Qed.

Section Parse.

Variable UBI_DEV_NUM_AUTO : Z.
Variable posixly_correct : bool.
Variable argv : list string.
Variable w : world.

Local Abbreviation st0 :=
  (initial_state UBI_DEV_NUM_AUTO posixly_correct argv w).
Local Abbreviation argc := (Z.of_nat (List.length argv)).
Local Abbreviation toks := (options_of posixly_correct argv).
Local Abbreviation dfin := (snd (scan posixly_correct argv)).
Local Abbreviation ops := (operands_of posixly_correct argv).
Local Abbreviation a1 := (store_all toks (myargs_init UBI_DEV_NUM_AUTO)).

Lemma scan_eq : scan posixly_correct argv = (toks, dfin).
Proof. unfold options_of. destruct (scan _ _); reflexivity. Qed.

(** [optind] against [argc] once the scan is over. *)
Lemma scan_optind :
  (argv = [] /\ optind dfin = 1 /\ argc = 0 /\ ops = [])
  \/ (argc - optind dfin = Z.of_nat (List.length ops)
      /\ nth_error (gd_argv dfin) (Z.to_nat (optind dfin)) = hd_error ops).
Proof.
  pose proof scan_eq as G. unfold scan at 1 in G.
  apply getopt_all_le in G. destruct G as [L D].
  unfold operands_of, optind. cbv zeta. revert L D.
  generalize (snd (scan posixly_correct argv)). intros d L D.
  destruct argv as [|a0 rest] eqn:V.
  - left. unfold gd_argv in L.
    cbn [getopt_initialize gd_done gd_skipped gd_pending firstn skipn
         app List.length] in L.
    rewrite !length_app in L.
    destruct (gd_done d); [|cbn in L; lia].
    destruct (gd_skipped d); [|cbn in L; lia].
    destruct (gd_pending d); [|cbn in L; lia].
    auto.
  - right. cbn [getopt_initialize gd_done firstn List.length] in D.
    assert (Z.max 1 (Z.of_nat (List.length (gd_done d)))
            = Z.of_nat (List.length (gd_done d))) as -> by lia.
    split.
    + unfold gd_argv in L. rewrite !length_app in L.
      cbn [getopt_initialize gd_done gd_skipped gd_pending firstn skipn]
        in L.
      rewrite length_app. cbn [List.length app] in *. lia.
    + rewrite Nat2Z.id. unfold gd_argv.
      rewrite nth_error_app2 by lia. rewrite Nat.sub_diag.
      destruct (gd_skipped d ++ gd_pending d); reflexivity.
Qed.

Lemma loop_completes :
  forallb accepted toks = true ->
  parse_opt_loop (S (getopt_measure (gd st0))) st0 =
  (Val None, Build_state a1 dfin w []).
Proof.
  intros A. apply parse_opt_loop_completes with (st := st0); auto.
  exact scan_eq.
Qed.

(** Every option accepted, one operand and [-m] given: [parse_opt]
    returns 0 with the operand as the node, and prints nothing. *)
Lemma parse_opt_accepts (nd : string) :
  forallb accepted toks = true ->
  ops = [nd] ->
  existsb (is_key "m") toks = true ->
  parse_opt argc st0 =
  (Val 0,
   Build_state {| devn := devn a1; mtdn := mtdn a1; vidoffs := vidoffs a1;
                  node := Some nd |} dfin w []).
Proof.
  intros A O Mk. unfold parse_opt. unfold bind at 1, gets at 1.
  unfold bind at 1. rewrite (loop_completes A).
  unfold bind at 1, gets at 1. cbn [gd myargs].
  destruct scan_optind as [(_ & _ & _ & E)|[E1 E2]];
    [rewrite O in E; discriminate|].
  rewrite O in E1, E2. cbn [List.length hd_error] in E1, E2.
  replace (optind dfin =? argc) with false by (symmetry; apply Z.eqb_neq; lia).
  replace (optind dfin =? argc - 1) with true by (symmetry; apply Z.eqb_eq; lia).
  cbn [negb]. unfold bind at 1, gets at 1. cbn [myargs].
  pose proof (last_value_mtdn toks (-1) A Mk) as Pm.
  destruct (store_all_last toks (myargs_init UBI_DEV_NUM_AUTO))
    as (_ & Mt & _ & _).
  cbn [mtdn myargs_init] in Mt.
  replace (mtdn a1 =? -1) with false by (symmetry; apply Z.eqb_neq; lia).
  rewrite E2. reflexivity.
Qed.

(** Every option accepted, but not exactly one operand, or no [-m]:
    [parse_opt] prints one error message and returns -1. *)
Lemma parse_opt_incomplete :
  forallb accepted toks = true ->
  List.length ops <> 1%nat \/ existsb (is_key "m") toks = false ->
  exists msg,
    parse_opt argc st0 =
    (Val (-1), Build_state a1 dfin w [ev_errmsg msg []])
    /\ ((ops = [] /\ argv <> [] /\
         msg = "UBI control device name was not specified (use -h for help)")
        \/ (List.length ops <> 1%nat /\ (argv = [] \/ ops <> []) /\
            msg = "more then one UBI control device specified (use -h for help)")
        \/ (List.length ops = 1%nat /\ existsb (is_key "m") toks = false /\
            msg = "MTD device number was not specified (use -h for help)")).
Proof.
  intros A C. unfold parse_opt. unfold bind at 1, gets at 1.
  unfold bind at 1. rewrite (loop_completes A).
  unfold bind at 1, gets at 1. cbn [gd myargs].
  destruct scan_optind as [(V & E1 & E2 & E3)|[E1 E2]].
  - rewrite E1, E2. cbn. eexists. split; [reflexivity|].
    right. left. rewrite E3. cbn. auto.
  - destruct (optind dfin =? argc) eqn:X.
    + apply Z.eqb_eq in X. eexists. split; [reflexivity|]. left.
      assert (L : List.length ops = 0%nat) by lia.
      destruct ops; [|discriminate].
      repeat split; auto. intros V.
      rewrite V in *. unfold optind in E1. cbn in E1. lia.
    + apply Z.eqb_neq in X.
      destruct (optind dfin =? argc - 1) eqn:Y.
      * apply Z.eqb_eq in Y. cbn [negb].
        assert (L : List.length ops = 1%nat) by lia.
        destruct C as [C|C]; [contradiction|].
        unfold bind at 1, gets at 1. cbn [myargs].
        destruct (store_all_last toks (myargs_init UBI_DEV_NUM_AUTO))
          as (_ & Mt & _ & _).
        cbn [mtdn myargs_init] in Mt.
        rewrite last_value_absent in Mt by exact C. rewrite Mt.
        eexists. split; [reflexivity|]. auto.
      * apply Z.eqb_neq in Y. cbn [negb].
        eexists. split; [reflexivity|]. right. left.
        split; [lia|]. split; [|reflexivity]. right.
        destruct ops; [cbn [List.length] in E1; lia|discriminate].
Qed.

(** The first option that is not accepted decides how [parse_opt] ends. *)
Lemma parse_opt_rejects (pre post : list token) (t : token) :
  toks = pre ++ t :: post ->
  forallb accepted pre = true ->
  accepted t = false ->
  exists d,
    parse_opt argc st0 =
    (match fst (rejection t) with
     | Val (Some v) => Val v
     | Val None => Val 0
     | Exit n => Exit n
     | Fault => Fault
     | OutOfFuel => OutOfFuel
     end,
     Build_state (store_all (pre ++ [t]) (myargs_init UBI_DEV_NUM_AUTO)) d w
                 (diagnostics [t] ++ snd (rejection t)))
    /\ fst (rejection t) <> Val None
    /\ fst (rejection t) <> OutOfFuel.
Proof.
  intros T A R. pose proof scan_eq as G. rewrite T in G.
  destruct (parse_opt_loop_rejects (S (getopt_measure (gd st0))) st0
              pre t post dfin) as [d L]; auto.
  exists d. split.
  - unfold parse_opt. unfold bind at 1, gets at 1. unfold bind at 1.
    rewrite L. cbn [the_world st0 initial_state log myargs app].
    destruct (fst (rejection t)) as [[v|]| | |] eqn:F; try reflexivity.
    exfalso. clear - F. destruct t as [[key arg] diag].
    unfold rejection in F.
    repeat match type of F with
           | context [if ?b then _ else _] => destruct b
           | context [match ?o with Some _ => _ | None => _ end] =>
               destruct o
           end; discriminate.
  - destruct t as [[key arg] diag]. unfold rejection.
    split;
      repeat match goal with
             | |- context [if ?b then _ else _] => destruct b
             | |- context [match ?o with Some _ => _ | None => _ end] =>
                 destruct o
             end; discriminate.
Qed.

Lemma rejection_quiet (t : token) :
  filter is_step (diagnostics [t] ++ snd (rejection t)) = [].
Proof.
  destruct t as [[key arg] [m|]]; unfold rejection; cbn [diagnostics flat_map snd app];
    repeat match goal with
           | |- context [if ?b then _ else _] => destruct b
           | |- context [match ?o with Some _ => _ | None => _ end] =>
               destruct o
           end; reflexivity.
Qed.

(** How [parse_opt] ends: with 0, for the command lines that are well
    formed, or else, having printed diagnostics only, with -1, by [exit],
    or by a fault. *)
Lemma parse_opt_cases :
  (well_formed posixly_correct argv
   /\ exists nd,
       ops = [nd]
       /\ run_parse_opt UBI_DEV_NUM_AUTO posixly_correct argv w =
          (Val 0,
           Build_state (parsed_args UBI_DEV_NUM_AUTO toks nd) dfin w []))
  \/ (~ well_formed posixly_correct argv
      /\ exists r st1,
          run_parse_opt UBI_DEV_NUM_AUTO posixly_correct argv w = (r, st1)
          /\ (r = Val (-1) \/ r = Exit 0 \/ r = Exit (-1) \/ r = Fault)
          /\ the_world st1 = w
          /\ filter is_step (log st1) = []).
Proof.
  unfold well_formed, run_parse_opt.
  destruct (first_rejected toks) as [A|(pre & t & post & T & A & R)].
  - destruct (existsb (is_key "m") toks) eqn:Mk.
    + destruct ops as [|nd [|nd' more]] eqn:O.
      * right. split; [intros (_ & L & _); discriminate|].
        destruct (parse_opt_incomplete A) as (msg & P & _);
          [left; rewrite O; discriminate|].
        rewrite P. eexists _, _. split; [reflexivity|].
        cbn. auto.
      * left. split; [auto|]. exists nd. split; [reflexivity|].
        rewrite (parse_opt_accepts nd A O Mk).
        unfold parsed_args.
        destruct (store_all_last toks (myargs_init UBI_DEV_NUM_AUTO))
          as (D & Mt & V & _).
        rewrite D, Mt, V. reflexivity.
      * right. split; [intros (_ & L & _); discriminate|].
        destruct (parse_opt_incomplete A) as (msg & P & _);
          [left; rewrite O; discriminate|].
        rewrite P. eexists _, _. split; [reflexivity|].
        cbn. auto.
    + right. split; [intros (_ & _ & X); discriminate|].
      destruct (parse_opt_incomplete A) as (msg & P & _); [right; exact Mk|].
      rewrite P. eexists _, _. split; [reflexivity|]. cbn. auto.
  - right. split.
    + intros (X & _). rewrite T, forallb_app in X. cbn in X.
      rewrite R in X. rewrite andb_false_r in X. discriminate.
    + destruct (parse_opt_rejects pre post t T A R) as (d & P & N1 & N2).
      rewrite P. eexists _, _. split; [reflexivity|].
      cbn [the_world log]. split; [|split; [reflexivity|apply rejection_quiet]].
      clear - N1 N2. destruct t as [[key arg] diag].
      unfold rejection in *.
      repeat match goal with
             | |- context [if ?b then _ else _] => destruct b
             | |- context [match ?o with Some _ => _ | None => _ end] =>
                 destruct o
             end; cbn; auto.
Qed.

End Parse.

End Loop.

(** ** [main] *)

(** Runs the straight-line code that is left once the results of the
    calls are known. *)
Ltac finish_run :=
  cbv beta iota zeta delta
    [bind errmsg perror emit printf ubiutils_print_bytes libubi_close
     out_libubi call ret the_world log myargs gd fst snd].

Section Main.

Variable UBI_DEV_NUM_AUTO : Z.
Variable world : Type.
Variable lib : libubi_impl world.

(** After a successful [parse_opt], [main] returns, and what it does is
    one of the runs of [attach_run]. *)
Lemma main_attach_run (argc : Z) (st st1 : state world) :
  parse_opt argc st = (Val 0, st1) ->
  exists r l st',
    main lib argc st = (Val r, st')
    /\ log st' = log st1 ++ l
    /\ myargs st' = myargs st1
    /\ attach_run (myargs st1) r l.
Proof.
  intros P. unfold main. unfold bind at 1. rewrite P. cbn [Z.eqb negb].
  unfold bind at 1, libubi_open, call.
  destruct (impl_libubi_open lib (the_world st1)) as [h w1].
  destruct (h =? NULL) eqn:H0.
  { apply Z.eqb_eq in H0; subst h.
    finish_run.
      eexists _, _, _. split; [reflexivity|]. cbn [log myargs].
    split; [rewrite <- !app_assoc; reflexivity|].
    split; [reflexivity|apply open_failed; assumption]. }
  apply Z.eqb_neq in H0.
  unfold bind at 1, ubi_get_info, call. cbn [the_world].
  destruct (impl_ubi_get_info lib h w1) as [[err ui] w2].
  destruct (err =? 0) eqn:E1; cbn [negb].
  2:{ apply Z.eqb_neq in E1.
      finish_run.
      eexists _, _, _. split; [reflexivity|]. cbn [log myargs fst snd].
      split; [rewrite <- !app_assoc; reflexivity|].
      split; [reflexivity|apply get_info_failed; assumption]. }
  apply Z.eqb_eq in E1; subst err.
  destruct (ctrl_major ui =? -1) eqn:CM.
  { apply Z.eqb_eq in CM.
    finish_run.
      eexists _, _, _. split; [reflexivity|]. cbn [log myargs fst snd].
    split; [rewrite <- !app_assoc; reflexivity|].
    split; [reflexivity|apply not_supported; assumption]. }
  apply Z.eqb_neq in CM.
  unfold bind at 1, gets at 1. cbn [myargs].
  unfold bind at 1, ubi_attach_mtd, call. cbn [the_world].
  destruct (impl_ubi_attach_mtd lib h (node (myargs st1))
              {| dev_num := devn (myargs st1); mtd_num := mtdn (myargs st1);
                 vid_hdr_offset := vidoffs (myargs st1) |} w2)
    as [[err req'] w3].
  destruct (err =? 0) eqn:E2; cbn [negb].
  2:{ apply Z.eqb_neq in E2.
      finish_run.
      eexists _, _, _. split; [reflexivity|]. cbn [log myargs fst snd].
      split; [rewrite <- !app_assoc; reflexivity|].
      split; [reflexivity|apply attach_failed; assumption]. }
  apply Z.eqb_eq in E2; subst err.
  unfold bind at 1, ubi_get_dev_info1, call. cbn [the_world].
  destruct (impl_ubi_get_dev_info1 lib h (dev_num req') w3)
    as [[err di] w4].
  destruct (err =? 0) eqn:E3; cbn [negb].
  2:{ apply Z.eqb_neq in E3.
      finish_run.
      eexists _, _, _. split; [reflexivity|]. cbn [log myargs fst snd].
      split; [rewrite <- !app_assoc; reflexivity|].
      split; [reflexivity|apply get_dev_info_failed; assumption]. }
  apply Z.eqb_eq in E3; subst err.
  finish_run.
      eexists _, _, _. split; [reflexivity|]. cbn [log myargs fst snd].
  split; [unfold report; rewrite <- !app_assoc; reflexivity|].
  split; [reflexivity|apply attached; assumption].
Qed.

(** When [parse_opt] does not return 0, [main] stops there. *)
Lemma main_parse_failed (argc : Z) (st st1 : state world) (r : result Z) :
  parse_opt argc st = (r, st1) ->
  r <> Val 0 ->
  main lib argc st =
  (match r with Val _ => Val (-1) | _ => r end, st1).
Proof.
  intros P N. unfold main. unfold bind at 1. rewrite P.
  destruct r as [v| | |]; try reflexivity.
  destruct (v =? 0) eqn:E; [|reflexivity].
  apply Z.eqb_eq in E. congruence.
Qed.

(** The two kinds of runs. *)
Lemma run_cases (posixly_correct : bool) (argv : list string) (w : world) :
  (well_formed posixly_correct argv
   /\ exists nd v st',
       operands_of posixly_correct argv = [nd]
       /\ fst (run_parse_opt UBI_DEV_NUM_AUTO posixly_correct argv w) = Val 0
       /\ run UBI_DEV_NUM_AUTO lib posixly_correct argv w = (Val v, st')
       /\ attach_run
            (parsed_args UBI_DEV_NUM_AUTO (options_of posixly_correct argv) nd)
            v (log st'))
  \/ (~ well_formed posixly_correct argv
      /\ exists r st1,
          run_parse_opt UBI_DEV_NUM_AUTO posixly_correct argv w = (r, st1)
          /\ run UBI_DEV_NUM_AUTO lib posixly_correct argv w = (r, st1)
          /\ (r = Val (-1) \/ r = Exit 0 \/ r = Exit (-1) \/ r = Fault)
          /\ the_world st1 = w
          /\ filter is_step (log st1) = []).
Proof.
  destruct (parse_opt_cases world UBI_DEV_NUM_AUTO posixly_correct argv w)
    as [(W & nd & O & P)|(W & r & st1 & P & R & Wd & Q)].
  - left. split; [exact W|].
    destruct (main_attach_run _ _ _ P) as (v & l & st' & Mn & L & _ & AR).
    exists nd, v, st'. rewrite P. cbn [log app myargs fst] in *.
    rewrite L. auto.
  - right. split; [exact W|]. exists r, st1.
    split; [exact P|]. split; [|auto].
    unfold run. unfold run_parse_opt in P.
    rewrite (main_parse_failed _ _ _ _ P).
    + destruct R as [R|[R|[R|R]]]; subst r; reflexivity.
    + destruct R as [R|[R|[R|R]]]; subst r; discriminate.
Qed.

(** After a successful [parse_opt], [main] makes the calls of
    [linear_run] on the library it is linked with. *)
Lemma main_linear_run (argc : Z) (st st1 : state world) :
  parse_opt argc st = (Val 0, st1) ->
  exists r l st',
    main lib argc st = (Val r, st')
    /\ log st' = log st1 ++ l
    /\ linear_run lib (myargs st1) (the_world st1) r l (the_world st').
Proof.
  intros P. unfold main. unfold bind at 1. rewrite P. cbn [Z.eqb negb].
  unfold bind at 1, libubi_open, call.
  destruct (impl_libubi_open lib (the_world st1)) as [h w1] eqn:Eo.
  destruct (h =? NULL) eqn:H0.
  { apply Z.eqb_eq in H0; subst h. finish_run.
    eexists _, _, _. split; [reflexivity|]. cbn [log the_world].
    split; [rewrite <- !app_assoc; reflexivity|].
    apply stops_at_open. exact Eo. }
  apply Z.eqb_neq in H0.
  unfold bind at 1, ubi_get_info, call. cbn [the_world].
  destruct (impl_ubi_get_info lib h w1) as [[err ui] w2] eqn:Ei.
  destruct (err =? 0) eqn:E1; cbn [negb].
  2:{ apply Z.eqb_neq in E1. finish_run.
      eexists _, _, _. split; [reflexivity|]. cbn [log the_world].
      split; [rewrite <- !app_assoc; reflexivity|].
      eapply stops_at_get_info; [exact Eo|exact H0|exact Ei|exact E1]. }
  apply Z.eqb_eq in E1; subst err.
  destruct (ctrl_major ui =? -1) eqn:CM.
  { apply Z.eqb_eq in CM. finish_run.
    eexists _, _, _. split; [reflexivity|]. cbn [log the_world].
    split; [rewrite <- !app_assoc; reflexivity|].
    eapply stops_at_ctrl_major; [exact Eo|exact H0|exact Ei|exact CM]. }
  apply Z.eqb_neq in CM.
  unfold bind at 1, gets at 1. cbn [myargs].
  unfold bind at 1, ubi_attach_mtd, call. cbn [the_world].
  change {| dev_num := devn (myargs st1); mtd_num := mtdn (myargs st1);
            vid_hdr_offset := vidoffs (myargs st1) |}
    with (request (myargs st1)).
  destruct (impl_ubi_attach_mtd lib h (node (myargs st1))
              (request (myargs st1)) w2) as [[err req'] w3] eqn:Ea.
  destruct (err =? 0) eqn:E2; cbn [negb].
  2:{ apply Z.eqb_neq in E2. finish_run.
      eexists _, _, _. split; [reflexivity|]. cbn [log the_world].
      split; [rewrite <- !app_assoc; reflexivity|].
      eapply stops_at_attach;
        [exact Eo|exact H0|exact Ei|exact CM|exact Ea|exact E2]. }
  apply Z.eqb_eq in E2; subst err.
  unfold bind at 1, ubi_get_dev_info1, call. cbn [the_world].
  destruct (impl_ubi_get_dev_info1 lib h (dev_num req') w3)
    as [[err di] w4] eqn:Ed.
  destruct (err =? 0) eqn:E3; cbn [negb].
  2:{ apply Z.eqb_neq in E3. finish_run.
      eexists _, _, _. split; [reflexivity|]. cbn [log the_world].
      split; [rewrite <- !app_assoc; reflexivity|].
      eapply stops_at_get_dev_info;
        [exact Eo|exact H0|exact Ei|exact CM|exact Ea|exact Ed|exact E3]. }
  apply Z.eqb_eq in E3; subst err. finish_run.
  eexists _, _, _. split; [reflexivity|]. cbn [log the_world].
  split; [unfold report; rewrite <- !app_assoc; reflexivity|].
  eapply goes_through; [exact Eo|exact H0|exact Ei|exact CM|exact Ea|exact Ed].
Qed.

(** The run of a well formed command line on the library. *)
Lemma run_linear (posixly_correct : bool) (argv : list string) (w : world) :
  well_formed posixly_correct argv ->
  exists nd v,
    operands_of posixly_correct argv = [nd]
    /\ fst (run UBI_DEV_NUM_AUTO lib posixly_correct argv w) = Val v
    /\ linear_run lib
         (parsed_args UBI_DEV_NUM_AUTO (options_of posixly_correct argv) nd)
         w v
         (log (snd (run UBI_DEV_NUM_AUTO lib posixly_correct argv w)))
         (the_world (snd (run UBI_DEV_NUM_AUTO lib posixly_correct argv w))).
Proof.
  intros W.
  destruct (parse_opt_cases world UBI_DEV_NUM_AUTO posixly_correct argv w)
    as [(_ & nd & O & P)|(N & _)]; [|contradiction].
  unfold run_parse_opt in P.
  destruct (main_linear_run _ _ _ P) as (v & l & st' & Mn & L & LR).
  exists nd, v. unfold run. rewrite Mn. cbn [fst snd log the_world app] in *.
  rewrite L. auto.
Qed.

(** C1. Every run is the linear sequence, cut at the first step that does
    not succeed: when [parse_opt] does not return 0 no call is made,
    nothing is printed on stdout and the world is untouched; when it does,
    [main] calls [libubi_open], [ubi_get_info], [ubi_attach_mtd] and
    [ubi_get_dev_info1] of the library it runs on, each on the world the
    call before it left and only after the ones before it succeeded, then
    prints the report, closes the handle and returns 0 ([linear_run]);
    when the four calls succeed the run goes through to the end and
    returns 0; the attach request is issued at most once, and 0 is
    returned only by the run that goes through every step. *)
Theorem main_linear_sequence (posixly_correct : bool) (argv : list string)
    (w : world) :
  let p := run_parse_opt UBI_DEV_NUM_AUTO posixly_correct argv w in
  let r := fst (run UBI_DEV_NUM_AUTO lib posixly_correct argv w) in
  let l := log (snd (run UBI_DEV_NUM_AUTO lib posixly_correct argv w)) in
  let w' := the_world (snd (run UBI_DEV_NUM_AUTO lib posixly_correct argv w)) in
  ((fst p <> Val 0 /\ r <> Val 0 /\ filter is_step l = [] /\ w' = w)
   \/ (fst p = Val 0
       /\ exists nd v,
           let a := parsed_args UBI_DEV_NUM_AUTO
                      (options_of posixly_correct argv) nd in
           myargs (snd p) = a
           /\ r = Val v
           /\ attach_run a v l
           /\ linear_run lib a w v l w'
           /\ (forall h w1 ui w2 req' w3 di w4,
                 impl_libubi_open lib w = (h, w1) -> h <> NULL ->
                 impl_ubi_get_info lib h w1 = ((0, ui), w2) ->
                 ctrl_major ui <> -1 ->
                 impl_ubi_attach_mtd lib h (node a) (request a) w2
                 = ((0, req'), w3) ->
                 impl_ubi_get_dev_info1 lib h (dev_num req') w3
                 = ((0, di), w4) ->
                 r = Val 0
                 /\ l = [ ev_libubi_open h;
                          ev_ubi_get_info h 0 ui;
                          ev_ubi_attach_mtd h (node a) (request a) 0 req';
                          ev_ubi_get_dev_info1 h (dev_num req') 0 di ]
                        ++ report di ++ [ev_libubi_close h]
                 /\ w' = impl_libubi_close lib h w4)))
  /\ (List.length (filter is_attach l) <= 1)%nat
  /\ (r = Val 0 ->
      exists h ui nd req req' di,
        l = [ ev_libubi_open h;
              ev_ubi_get_info h 0 ui;
              ev_ubi_attach_mtd h nd req 0 req';
              ev_ubi_get_dev_info1 h (dev_num req') 0 di;
              ev_printf "UBI device number %d, total %d LEBs ("
                        [arg_d (info_dev_num di); arg_d (total_lebs di)];
              ev_ubiutils_print_bytes (total_bytes di) 0;
              ev_printf "), available %d LEBs (" [arg_d (avail_lebs di)];
              ev_ubiutils_print_bytes (avail_bytes di) 0;
              ev_printf "), LEB size " [];
              ev_ubiutils_print_bytes (leb_size di) 1;
              ev_printf "\n" [];
              ev_libubi_close h ]
        /\ h <> NULL /\ ctrl_major ui <> -1).
Proof.
  cbv zeta.
  destruct (run_cases posixly_correct argv w)
    as [(W & nd & v & st' & O & P & R & AR)
       |(_ & r & st1 & P & R & C & Wd & Q)].
  - destruct (run_linear posixly_correct argv w W)
      as (nd' & v' & O' & V' & LR).
    rewrite O in O'. inversion O'; subst nd'.
    rewrite R in V', LR. cbn [fst snd] in V', LR. inversion V'; subst v'.
    rewrite R; cbn [fst snd].
    split; [right|split].
    + split; [exact P|]. exists nd, v.
      split.
      { destruct (parse_opt_cases world UBI_DEV_NUM_AUTO posixly_correct
                    argv w) as [(_ & nd2 & O2 & P2)|(N & _)];
          [|contradiction].
        rewrite O in O2. inversion O2; subst nd2. rewrite P2. reflexivity. }
      split; [reflexivity|]. split; [exact AR|]. split; [exact LR|].
      intros h w1 ui w2 req' w3 di w4 Eo H0 Ei CM Ea Ed.
      inversion LR; subst;
        repeat match goal with
               | H1 : ?x = _, H2 : ?x = _ |- _ =>
                   rewrite H1 in H2; inversion H2; subst; clear H2
               end;
        try congruence.
      auto.
    + inversion AR; cbn; lia.
    + intros E. inversion E; subst v. inversion AR; subst.
      eexists _, _, _, _, _, _. split; [reflexivity|auto].
  - rewrite R, P. cbn [fst snd].
    assert (N : r <> Val 0)
      by (destruct C as [C|[C|[C|C]]]; subst r; discriminate).
    split; [left; auto|].
    split; [|intros E; contradiction].
    assert (F : filter is_attach (log st1) = []).
    { destruct (filter is_attach (log st1)) as [|e l'] eqn:F; [reflexivity|].
      assert (HI : In e (filter is_attach (log st1)))
        by (rewrite F; left; reflexivity).
      apply filter_In in HI as [I1 I2].
      assert (X : In e (filter is_step (log st1)))
        by (apply filter_In; split;
            [exact I1|destruct e; try discriminate; reflexivity]).
      rewrite Q in X. destruct X. }
    rewrite F. cbn. lia.
Qed.

(** An event of a log that is given as an explicit list. *)
Ltac find_event H :=
  cbn [In app report] in H;
  repeat match type of H with
         | _ \/ _ => destruct H as [H|H]
         | False => destruct H
         | _ = ?y => first [discriminate H | subst y
                            | inversion H; subst; clear H]
         end.

Ltac no_step Q H :=
  exfalso;
  match type of H with
  | In ?e ?l =>
      assert (X : In e (filter is_step l))
        by (apply filter_In; split; [exact H|reflexivity]);
      rewrite Q in X; exact X
  end.

(** C8. When [ubi_get_info] succeeds and reports the control device major
    -1, the run is: open, get info, the message that the feature is not
    supported, close; [main] returns -1 and no attach request is issued. *)
Theorem unsupported_kernel_stops (posixly_correct : bool)
    (argv : list string) (w : world) (h : libubi_t) (ui : ubi_info) :
  let r := fst (run UBI_DEV_NUM_AUTO lib posixly_correct argv w) in
  let l := log (snd (run UBI_DEV_NUM_AUTO lib posixly_correct argv w)) in
  In (ev_ubi_get_info h 0 ui) l ->
  ctrl_major ui = -1 ->
  r = Val (-1)
  /\ l = [ ev_libubi_open h;
           ev_ubi_get_info h 0 ui;
           ev_errmsg "MTD attach/detach feature is not supported by your kernel" [];
           ev_libubi_close h ]
  /\ filter is_attach l = [].
Proof.
  cbv zeta.
  destruct (run_cases posixly_correct argv w)
    as [(_ & nd & v & st' & _ & P & R & AR)
       |(_ & r & st1 & P & R & C & _ & Q)];
    rewrite R; cbn [fst snd]; intros H M.
  - inversion AR; subst; rewrite <- ?H0 in H; rewrite <- ?H1 in H;
      match goal with X : _ = log st' |- _ => rewrite <- X in *; clear X end;
      find_event H; try congruence.
    auto.
  - no_step Q H.
Qed.

(** C10. When [libubi_open] returns a handle, [main] returns (it does not
    leave by [exit]), and [libubi_close] is called exactly once, on that
    handle, as the last thing the program does. *)
Theorem libubi_closed_once (posixly_correct : bool) (argv : list string)
    (w : world) (h : libubi_t) :
  let r := fst (run UBI_DEV_NUM_AUTO lib posixly_correct argv w) in
  let l := log (snd (run UBI_DEV_NUM_AUTO lib posixly_correct argv w)) in
  In (ev_libubi_open h) l ->
  h <> NULL ->
  (exists v, r = Val v)
  /\ filter is_open l = [ev_libubi_open h]
  /\ filter is_close l = [ev_libubi_close h]
  /\ exists before, l = before ++ [ev_libubi_close h].
Proof.
  cbv zeta.
  destruct (run_cases posixly_correct argv w)
    as [(_ & nd & v & st' & _ & P & R & AR)
       |(_ & r & st1 & P & R & C & _ & Q)];
    rewrite R; cbn [fst snd]; intros H N.
  - split; [eauto|].
    inversion AR; subst;
      match goal with X : _ = log st' |- _ => rewrite <- X in *; clear X end;
      find_event H; try congruence;
      (split; [reflexivity|]); (split; [reflexivity|]);
      match goal with
      | |- exists before, ?l = before ++ _ =>
          exists (removelast l); reflexivity
      end.
  - no_step Q H.
Qed.

(** C6. When [main] returns 0, what it wrote on stdout is, for the
    device information [di] that [ubi_get_dev_info1] returned: the device
    number and the number of LEBs, the total bytes through
    [ubiutils_print_bytes], the available LEBs, the available bytes through
    [ubiutils_print_bytes], the LEB size through [ubiutils_print_bytes],
    and a newline. *)
Theorem success_report (posixly_correct : bool) (argv : list string)
    (w : world) :
  let r := fst (run UBI_DEV_NUM_AUTO lib posixly_correct argv w) in
  let l := log (snd (run UBI_DEV_NUM_AUTO lib posixly_correct argv w)) in
  r = Val 0 ->
  exists h dev di,
    In (ev_ubi_get_dev_info1 h dev 0 di) l
    /\ filter is_stdout l =
       [ ev_printf "UBI device number %d, total %d LEBs ("
                   [arg_d (info_dev_num di); arg_d (total_lebs di)];
         ev_ubiutils_print_bytes (total_bytes di) 0;
         ev_printf "), available %d LEBs (" [arg_d (avail_lebs di)];
         ev_ubiutils_print_bytes (avail_bytes di) 0;
         ev_printf "), LEB size " [];
         ev_ubiutils_print_bytes (leb_size di) 1;
         ev_printf "\n" [] ].
Proof.
  cbv zeta.
  destruct (run_cases posixly_correct argv w)
    as [(_ & nd & v & st' & _ & P & R & AR)
       |(_ & r & st1 & P & R & C & _ & Q)];
    rewrite R; cbn [fst snd]; intros E.
  - inversion E; subst v. inversion AR; subst.
    exists h, (dev_num req'), di. split; [|reflexivity].
    cbn. auto.
  - destruct C as [C|[C|[C|C]]]; subst r; discriminate.
Qed.

(** C7. After an attach request that succeeded, [ubi_get_dev_info1] is
    called for the device number the library left in the request, and the
    device number printed is the one that call returned. *)
Theorem dev_info_of_attached_device (posixly_correct : bool)
    (argv : list string) (w : world) (h : libubi_t) (nd : option string)
    (req req' : ubi_attach_request) :
  let l := log (snd (run UBI_DEV_NUM_AUTO lib posixly_correct argv w)) in
  In (ev_ubi_attach_mtd h nd req 0 req') l ->
  exists err di,
    In (ev_ubi_get_dev_info1 h (dev_num req') err di) l
    /\ (forall h' dev err' di',
          In (ev_ubi_get_dev_info1 h' dev err' di') l ->
          h' = h /\ dev = dev_num req' /\ err' = err /\ di' = di)
    /\ (forall printed,
          In (ev_printf "UBI device number %d, total %d LEBs (" printed) l ->
          printed = [arg_d (info_dev_num di); arg_d (total_lebs di)])
    /\ (err = 0 ->
        In (ev_printf "UBI device number %d, total %d LEBs ("
                      [arg_d (info_dev_num di); arg_d (total_lebs di)]) l).
Proof.
  cbv zeta.
  destruct (run_cases posixly_correct argv w)
    as [(_ & nd0 & v & st' & _ & P & R & AR)
       |(_ & r & st1 & P & R & C & _ & Q)];
    rewrite R; cbn [fst snd]; intros H.
  - inversion AR; subst;
      match goal with X : _ = log st' |- _ => rewrite <- X in *; clear X end;
      find_event H; try congruence.
    + exists err, di. split; [cbn; auto|].
      split; [intros h' dev err' di' HI; find_event HI; auto|].
      split; [intros printed HI; find_event HI|].
      intros E. contradiction.
    + exists 0, di. split; [cbn; auto|].
      split; [intros h' dev err' di' HI; find_event HI; auto|].
      split; [intros printed HI; find_event HI; reflexivity|].
      intros _. cbn. do 4 right. left. reflexivity.
  - no_step Q H.
Qed.

(** C2. A call that fails ([libubi_open] returning [NULL], or one of the
    three others returning non-zero) is followed by an error message and by
    [perror] with the name of the function, then by [libubi_close] when a
    handle is open, and by nothing else; [main] returns -1; and no call
    before it had failed. *)
Theorem failed_call_reported (posixly_correct : bool) (argv : list string)
    (w : world) (e : event) (fn : string) :
  let r := fst (run UBI_DEV_NUM_AUTO lib posixly_correct argv w) in
  let l := log (snd (run UBI_DEV_NUM_AUTO lib posixly_correct argv w)) in
  In e l ->
  failed_call e = Some fn ->
  r = Val (-1)
  /\ exists before msg margs closing,
      l = before ++ [e; ev_errmsg msg margs; ev_perror fn] ++ closing
      /\ (forall e', In e' before -> failed_call e' = None)
      /\ (closing = [] \/ exists h, closing = [ev_libubi_close h]).
Proof.
  cbv zeta.
  destruct (run_cases posixly_correct argv w)
    as [(_ & nd0 & v & st' & _ & P & R & AR)
       |(_ & r & st1 & P & R & C & _ & Q)];
    rewrite R; cbn [fst snd]; intros H F.
  - assert (NN : forall h : Z, h <> NULL -> (h =? NULL) = false)
      by (intros; apply Z.eqb_neq; assumption).
    assert (NZ : forall x : Z, x <> 0 -> (x =? 0) = false)
      by (intros; apply Z.eqb_neq; assumption).
    inversion AR; subst;
      match goal with X : _ = log st' |- _ => rewrite <- X in *; clear X end;
      find_event H; cbn [failed_call] in F;
      rewrite ?NN in F by assumption; rewrite ?NZ in F by assumption;
      cbn in F; try discriminate F; inversion F; subst fn;
      (split; [reflexivity|]).
    + exists [], "cannot open libubi", [], []. cbn.
      split; [reflexivity|]. split; [intros e' []|left; reflexivity].
    + exists [ev_libubi_open h], "cannot get UBI information", [],
        [ev_libubi_close h].
      split; [reflexivity|]. split; [|eauto].
      intros e' I; find_event I; cbn; rewrite NN by assumption; reflexivity.
    + eexists [ev_libubi_open h; ev_ubi_get_info h 0 ui],
        "cannot attach mtd%d", _, [ev_libubi_close h].
      split; [reflexivity|]. split; [|eauto].
      intros e' I; find_event I; cbn; rewrite ?NN by assumption; reflexivity.
    + eexists [ev_libubi_open h; ev_ubi_get_info h 0 ui; _],
        "cannot get information about newly created UBI device", [],
        [ev_libubi_close h].
      split; [reflexivity|]. split; [|eauto].
      intros e' I; find_event I; cbn; rewrite ?NN by assumption; reflexivity.
  - exfalso. assert (S : is_step e = true)
      by (destruct e; try discriminate; reflexivity).
    assert (X : In e (filter is_step (log st1)))
      by (apply filter_In; split; assumption).
    rewrite Q in X. exact X.
Qed.

(** The value of an option is the number its last occurrence gives. *)
Lemma last_value_last (key : ascii) (s : string) (dg : option getopt_diag)
    (post : list token) :
  forall pre default,
  existsb (is_key key) post = false ->
  last_value key (pre ++ (chr key, Some s, dg) :: post) default = number s.
Proof.
  induction pre as [|[[k [a|]] d] pre IH]; intros default E.
  - cbn. rewrite Z.eqb_refl. apply last_value_absent. exact E.
  - cbn. apply IH. exact E.
  - cbn. apply IH. exact E.
Qed.

(** C3. The attach request is [myargs] as the command line left it: the
    device number is the value of the last [-d], or [UBI_DEV_NUM_AUTO]
    without [-d]; the MTD number is the value of the last [-m], which is
    there; the VID header offset is the value of the last [-o], or 0
    without [-o]. *)
Theorem attach_request_pass_through (posixly_correct : bool)
    (argv : list string) (w : world) (h : libubi_t) (nd : option string)
    (req req' : ubi_attach_request) (err : Z) :
  let l := log (snd (run UBI_DEV_NUM_AUTO lib posixly_correct argv w)) in
  let toks := options_of posixly_correct argv in
  In (ev_ubi_attach_mtd h nd req err req') l ->
  dev_num req = last_value "d" toks UBI_DEV_NUM_AUTO
  /\ mtd_num req = last_value "m" toks (-1)
  /\ vid_hdr_offset req = last_value "o" toks 0
  /\ (existsb (is_key "d") toks = false -> dev_num req = UBI_DEV_NUM_AUTO)
  /\ existsb (is_key "m") toks = true
  /\ (existsb (is_key "o") toks = false -> vid_hdr_offset req = 0).
Proof.
  cbv zeta.
  destruct (run_cases posixly_correct argv w)
    as [((_ & _ & Mk) & nd0 & v & st' & _ & P & R & AR)
       |(_ & r & st1 & P & R & C & _ & Q)];
    rewrite R; cbn [fst snd]; intros H.
  - assert (G : req = request (parsed_args UBI_DEV_NUM_AUTO
                                 (options_of posixly_correct argv) nd0)).
    { inversion AR; subst;
        match goal with X : _ = log st' |- _ => rewrite <- X in *; clear X end;
        find_event H; reflexivity. }
    subst req. cbn [request parsed_args dev_num mtd_num vid_hdr_offset
                    devn mtdn vidoffs].
    repeat split; auto; intros A; apply last_value_absent; exact A.
  - no_step Q H.
Qed.

(** The loop bound of the model is never reached. *)
Lemma parse_opt_terminates (posixly_correct : bool) (argv : list string)
    (w : world) :
  fst (run_parse_opt UBI_DEV_NUM_AUTO posixly_correct argv w) <> OutOfFuel
  /\ fst (run UBI_DEV_NUM_AUTO lib posixly_correct argv w) <> OutOfFuel.
Proof.
  destruct (run_cases posixly_correct argv w)
    as [(_ & nd & v & st' & _ & P & R & AR)
       |(_ & r & st1 & P & R & C & _ & Q)].
  - rewrite P, R. split; discriminate.
  - rewrite P, R. cbn.
    destruct C as [C|[C|[C|C]]]; subst r; split; discriminate.
Qed.

(** X15. [-d] and [-m] on a command line of C strings, in terms of the
    [int] that [parse_opt] stores (the result of [strtoul] converted):
    when [parse_opt] returns 0, the argument of every [-d] and [-m] was
    consumed by [strtoul] to its end, had a numeric part, and the stored
    value is not negative; and at the first option that is not accepted,
    when it is a [-d] or [-m] whose argument has characters left after the
    number, or no numeric part, or a stored value that is negative,
    [parse_opt] prints the bad device number message for that argument and
    returns -1, and so does [main]. *)
Theorem device_number_checked (posixly_correct : bool) (argv : list string)
    (w : world) :
  Forall nul_free argv ->
  let toks := options_of posixly_correct argv in
  let p := run_parse_opt UBI_DEV_NUM_AUTO posixly_correct argv w in
  (fst p = Val 0 ->
   forall key s diag,
     In (key, Some s, diag) toks ->
     key = chr "d" \/ key = chr "m" ->
     snd (strtoul s) = String.length s
     /\ snd (strtoul s) <> 0%nat
     /\ 0 <= number s)
  /\ (forall pre key s diag post,
        toks = pre ++ (key, Some s, diag) :: post ->
        forallb accepted pre = true ->
        key = chr "d" \/ key = chr "m" ->
        (snd (strtoul s) < String.length s)%nat
        \/ snd (strtoul s) = 0%nat
        \/ number s < 0 ->
        fst p = Val (-1)
        /\ log (snd p) =
           [ev_errmsg
              ("bad " ++ (if key =? chr "d" then "UBI" else "MTD")
               ++ " device number: " ++ dq ++ "%s" ++ dq)
              [arg_s s]]
        /\ run UBI_DEV_NUM_AUTO lib posixly_correct argv w = p).
Proof.
  intros CS. cbv zeta. split.
  - intros E key s diag HI K.
    assert (A : accepted (key, Some s, diag) = true).
    { destruct (parse_opt_cases world UBI_DEV_NUM_AUTO posixly_correct
                  argv w) as [((A & _) & _)|(_ & r & st1 & P & C & _)].
      - eapply forallb_forall in A; eauto.
      - rewrite P in E. cbn in E. subst r.
        destruct C as [C|[C|[C|C]]]; discriminate. }
    pose proof (options_nul_free _ _ CS _ _ _ HI) as N.
    assert (B : whole_number s && (0 <=? number s) = true)
      by (destruct K; subst key; exact A).
    apply andb_true_iff in B as [B1 B2].
    apply whole_number_spec in B1; [|exact N]. apply Z.leb_le in B2.
    tauto.
  - intros pre key s diag post T A K Bad.
    assert (HI : In (key, Some s, diag) (options_of posixly_correct argv))
      by (rewrite T; apply in_or_app; right; left; reflexivity).
    pose proof (options_nul_free _ _ CS _ _ _ HI) as N.
    assert (D : diag = None).
    { destruct diag as [m|]; [|reflexivity].
      apply options_diag in HI. destruct K; subst key; discriminate. }
    subst diag.
    assert (R : accepted (key, Some s, None) = false).
    { assert (B : whole_number s && (0 <=? number s) = false).
      { apply andb_false_iff.
        destruct (whole_number s) eqn:W; [|auto].
        apply whole_number_spec in W; [|exact N]. right.
        apply Z.leb_gt. lia. }
      destruct K; subst key; exact B. }
    destruct (parse_opt_rejects world UBI_DEV_NUM_AUTO posixly_correct argv w
                pre post _ T A R) as (d & P & _).
    fold (run_parse_opt UBI_DEV_NUM_AUTO posixly_correct argv w) in P.
    assert (P' : run_parse_opt UBI_DEV_NUM_AUTO posixly_correct argv w =
                 (Val (-1),
                  Build_state
                    (store_all (pre ++ [(key, Some s, None)])
                       (myargs_init UBI_DEV_NUM_AUTO)) d w
                    [ev_errmsg
                       ("bad " ++ (if key =? chr "d" then "UBI" else "MTD")
                        ++ " device number: " ++ dq ++ "%s" ++ dq)
                       [arg_s s]])).
    { rewrite P. destruct K; subst key; reflexivity. }
    rewrite P'. cbn [fst snd log]. split; [reflexivity|].
    split; [reflexivity|].
    unfold run. unfold run_parse_opt in P'.
    rewrite (main_parse_failed _ _ _ _ P'); [reflexivity|discriminate].
Qed.

(** C4, where the program fails. The short option [-o] is declared without
    an argument in the string given to [getopt_long], so [optarg] is null
    when [parse_opt] hands it to [strtoul]: the run ends in a fault, with
    the offset 2048 neither stored nor rejected with a message. *)
Theorem short_vid_hdr_offset_option_faults (posixly_correct : bool)
    (w : world) :
  let argv := ["ubiattach"; "-m"; "0"; "-o"; "2048"; "/dev/ubi_ctrl"] in
  options_of posixly_correct argv
  = [(chr "m", Some "0", None); (chr "o", None, None)]
  /\ fst (run_parse_opt UBI_DEV_NUM_AUTO posixly_correct argv w) = Fault
  /\ fst (run UBI_DEV_NUM_AUTO lib posixly_correct argv w) = Fault
  /\ log (snd (run UBI_DEV_NUM_AUTO lib posixly_correct argv w)) = [].
Proof.
  destruct posixly_correct; cbv zeta; repeat split; reflexivity.
Qed.

End Main.

(** ** Runs on concrete command lines *)

Example strtoul_dec : strtoul "42" = (42, 2%nat). Proof. reflexivity. Qed.
Example strtoul_hex : strtoul " 0x1F" = (31, 5%nat). Proof. reflexivity. Qed.
Example strtoul_oct : strtoul "017" = (15, 3%nat). Proof. reflexivity. Qed.
Example strtoul_junk : strtoul "12ab" = (12, 2%nat). Proof. reflexivity. Qed.
Example strtoul_none : strtoul "abc" = (0, 0%nat). Proof. reflexivity. Qed.
Example strtoul_0x : strtoul "0xg" = (0, 1%nat). Proof. reflexivity. Qed.
Example strtoul_neg : strtoul "-1" = (ULONG_MAX, 2%nat). Proof. reflexivity. Qed.
Example strtoul_big :
  strtoul "99999999999999999999999" = (ULONG_MAX, 23%nat).
Proof. reflexivity. Qed.

Example to_int_wraps : to_int (2 ^ 64 - 4294967295) = 1.
Proof. reflexivity. Qed.

Example scan_permutes :
  scan false ["ubiattach"; "/dev/ubi_ctrl"; "-m"; "0"; "--devn=7"]
  = ([(chr "m", Some "0", None); (chr "d", Some "7", None)],
     {| gd_done := ["ubiattach"; "-m"; "0"; "--devn=7"];
        gd_skipped := ["/dev/ubi_ctrl"]; gd_pending := [];
        gd_nextchar := ""; optarg := None;
        gd_posixly_correct := false |}).
Proof. reflexivity. Qed.

Example run_attaches :
  run (-1) scripted_libubi false
      ["ubiattach"; "/dev/ubi_ctrl"; "-m"; "0"] all_well
  = (Val 0,
     {| myargs := {| devn := -1; mtdn := 0; vidoffs := 0;
                     node := Some "/dev/ubi_ctrl" |};
        gd := {| gd_done := ["ubiattach"; "-m"; "0"];
                 gd_skipped := ["/dev/ubi_ctrl"]; gd_pending := [];
                 gd_nextchar := ""; optarg := None;
                 gd_posixly_correct := false |};
        the_world := all_well;
        log := [ ev_libubi_open 1;
                 ev_ubi_get_info 1 0 {| ctrl_major := 10 |};
                 ev_ubi_attach_mtd 1 (Some "/dev/ubi_ctrl")
                   {| dev_num := -1; mtd_num := 0; vid_hdr_offset := 0 |} 0
                   {| dev_num := 3; mtd_num := 0; vid_hdr_offset := 0 |};
                 ev_ubi_get_dev_info1 1 3 0 ubi3 ]
               ++ report ubi3 ++ [ev_libubi_close 1] |}).
Proof. reflexivity. Qed.

(** The long form of the option takes its argument. *)
Example long_vid_hdr_offset_option :
  myargs (snd (run_parse_opt (-1) false
                 ["ubiattach"; "-m"; "0"; "--vid-hdr-offset=2048";
                  "/dev/ubi_ctrl"] all_well))
  = {| devn := -1; mtdn := 0; vidoffs := 2048;
       node := Some "/dev/ubi_ctrl" |}.
Proof. reflexivity. Qed.

(** A minus sign does not always give a negative value: it is applied in
    [unsigned long], and the result is cut to an [int]. *)
Example wrapped_device_number :
  whole_number "-4294967295" = true /\ number "-4294967295" = 1.
Proof. split; reflexivity. Qed.

(** [-m -1]: the minus sign is read, the value wraps to [ULONG_MAX] and
    is -1 as an [int]. *)
Example negative_device_number :
  run_parse_opt (-1) false ["ubiattach"; "-m"; "-1"; "/dev/ubi_ctrl"]
                all_well
  = (Val (-1),
     {| myargs := {| devn := -1; mtdn := -1; vidoffs := 0; node := None |};
        gd := {| gd_done := ["ubiattach"; "-m"; "-1"];
                 gd_skipped := []; gd_pending := ["/dev/ubi_ctrl"];
                 gd_nextchar := ""; optarg := Some "-1";
                 gd_posixly_correct := false |};
        the_world := all_well;
        log := [ev_errmsg ("bad MTD device number: " ++ dq ++ "%s" ++ dq)
                          [arg_s "-1"]] |}).
Proof. reflexivity. Qed.

(** An unrecognised option: the scanner prints, [parse_opt] leaves by
    [exit]. *)
Example unrecognised_option :
  fst (run (-1) scripted_libubi false ["ubiattach"; "-x"] all_well)
  = Exit (-1)
  /\ log (snd (run (-1) scripted_libubi false ["ubiattach"; "-x"] all_well))
     = [ev_getopt (invalid_option "x");
        ev_fprintf_stderr "Use -h for help\n" []].
Proof. split; reflexivity. Qed.

Ltac in_log := vm_compute; repeat (first [left; reflexivity | right]).

Lemma failed_call_reported_witness :
  fst (run (-1) scripted_libubi false
         ["ubiattach"; "/dev/ubi_ctrl"; "-m"; "0"] attach_refused)
  = Val (-1).
Proof.
  refine (proj1 (failed_call_reported (-1) script scripted_libubi false
                   ["ubiattach"; "/dev/ubi_ctrl"; "-m"; "0"] attach_refused
                   (ev_ubi_attach_mtd 1 (Some "/dev/ubi_ctrl")
                      {| dev_num := -1; mtd_num := 0; vid_hdr_offset := 0 |}
                      (-1)
                      {| dev_num := 3; mtd_num := 0; vid_hdr_offset := 0 |})
                   "ubi_attach_mtd" _ _)).
  - in_log.
  - reflexivity.
Defined.

Lemma attach_request_pass_through_witness :
  dev_num {| dev_num := 7; mtd_num := 0; vid_hdr_offset := 2048 |}
  = last_value "d"
      (options_of false
         ["ubiattach"; "/dev/ubi_ctrl"; "-m"; "0"; "-d"; "7";
          "--vid-hdr-offset=2048"]) (-1).
Proof.
  refine (proj1 (attach_request_pass_through (-1) script scripted_libubi
                   false
                   ["ubiattach"; "/dev/ubi_ctrl"; "-m"; "0"; "-d"; "7";
                    "--vid-hdr-offset=2048"] all_well
                   1 (Some "/dev/ubi_ctrl")
                   {| dev_num := 7; mtd_num := 0; vid_hdr_offset := 2048 |}
                   {| dev_num := 3; mtd_num := 0; vid_hdr_offset := 2048 |}
                   0 _)).
  in_log.
Defined.

Lemma device_number_checked_witness :
  Forall nul_free ["ubiattach"; "-d"; "12abc"; "/dev/ubi_ctrl"]
  /\ fst (run_parse_opt (-1) false
            ["ubiattach"; "-d"; "12abc"; "/dev/ubi_ctrl"] all_well)
     = Val (-1).
Proof.
  assert (C : Forall nul_free ["ubiattach"; "-d"; "12abc"; "/dev/ubi_ctrl"])
    by (repeat constructor; discriminate).
  split; [exact C|].
  refine (proj1 (proj2 (device_number_checked (-1) script scripted_libubi
                          false
                          ["ubiattach"; "-d"; "12abc"; "/dev/ubi_ctrl"]
                          all_well C)
                   [] (chr "d") "12abc" None [] _ _ _ _)).
  - reflexivity.
  - reflexivity.
  - left. reflexivity.
  - left. vm_compute. lia.
Defined.

Lemma success_report_witness :
  exists h dev di,
    In (ev_ubi_get_dev_info1 h dev 0 di)
       (log (snd (run (-1) scripted_libubi false
                    ["ubiattach"; "/dev/ubi_ctrl"; "-m"; "0"] all_well)))
    /\ filter is_stdout
         (log (snd (run (-1) scripted_libubi false
                      ["ubiattach"; "/dev/ubi_ctrl"; "-m"; "0"] all_well)))
       = [ ev_printf "UBI device number %d, total %d LEBs ("
                     [arg_d (info_dev_num di); arg_d (total_lebs di)];
           ev_ubiutils_print_bytes (total_bytes di) 0;
           ev_printf "), available %d LEBs (" [arg_d (avail_lebs di)];
           ev_ubiutils_print_bytes (avail_bytes di) 0;
           ev_printf "), LEB size " [];
           ev_ubiutils_print_bytes (leb_size di) 1;
           ev_printf "\n" [] ].
Proof.
  refine (success_report (-1) script scripted_libubi false
            ["ubiattach"; "/dev/ubi_ctrl"; "-m"; "0"] all_well _).
  reflexivity.
Defined.

Lemma dev_info_of_attached_device_witness :
  exists err di,
    In (ev_ubi_get_dev_info1 1 3 err di)
       (log (snd (run (-1) scripted_libubi false
                    ["ubiattach"; "/dev/ubi_ctrl"; "-m"; "0"] all_well)))
    /\ (err = 0 ->
        In (ev_printf "UBI device number %d, total %d LEBs ("
                      [arg_d (info_dev_num di); arg_d (total_lebs di)])
           (log (snd (run (-1) scripted_libubi false
                        ["ubiattach"; "/dev/ubi_ctrl"; "-m"; "0"]
                        all_well)))).
Proof.
  destruct (dev_info_of_attached_device (-1) script scripted_libubi false
              ["ubiattach"; "/dev/ubi_ctrl"; "-m"; "0"] all_well
              1 (Some "/dev/ubi_ctrl")
              {| dev_num := -1; mtd_num := 0; vid_hdr_offset := 0 |}
              {| dev_num := 3; mtd_num := 0; vid_hdr_offset := 0 |})
    as (err & di & Q & _ & _ & P).
  - in_log.
  - exists err, di. split; [exact Q|exact P].
Defined.

Lemma unsupported_kernel_stops_witness :
  fst (run (-1) scripted_libubi false
         ["ubiattach"; "/dev/ubi_ctrl"; "-m"; "0"] old_kernel)
  = Val (-1)
  /\ filter is_attach
       (log (snd (run (-1) scripted_libubi false
                    ["ubiattach"; "/dev/ubi_ctrl"; "-m"; "0"] old_kernel)))
     = [].
Proof.
  destruct (unsupported_kernel_stops (-1) script scripted_libubi false
              ["ubiattach"; "/dev/ubi_ctrl"; "-m"; "0"] old_kernel
              1 {| ctrl_major := -1 |}) as (R & _ & A).
  - in_log.
  - reflexivity.
  - split; [exact R|exact A].
Defined.

Lemma libubi_closed_once_witness :
  filter is_close
    (log (snd (run (-1) scripted_libubi false
                 ["ubiattach"; "/dev/ubi_ctrl"; "-m"; "0"] attach_refused)))
  = [ev_libubi_close 1].
Proof.
  refine (proj1 (proj2 (proj2
            (libubi_closed_once (-1) script scripted_libubi false
               ["ubiattach"; "/dev/ubi_ctrl"; "-m"; "0"] attach_refused
               1 _ _)))).
  - in_log.
  - discriminate.
Defined.


(** * Further properties of [parse_opt] and [main] *)

(** ** What [getopt_long] can return for this program *)

Lemma lookup_long_in (l : list option_t) (nm : string) (p : option_t) :
  lookup_long l nm = Found p -> In p l.
Proof.
  unfold lookup_long, exact_match, abbreviations. intros H.
  destruct (find _ l) as [q|] eqn:F.
  - inversion H; subst. apply find_some in F. tauto.
  - destruct (filter _ l) as [|q others] eqn:G; [discriminate|].
    destruct (forallb (same_option q) others); [|discriminate].
    inversion H; subst.
    assert (X : In p (filter (fun p0 => String.prefix nm (name p0)) l))
      by (rewrite G; left; reflexivity).
    apply filter_In in X. tauto.
Qed.

Lemma process_short_option_key c rest d key diag d' :
  process_short_option optstring c rest d = (key, diag, d') ->
  scanner_result key (optarg d').
Proof.
  unfold process_short_option, optstring, scanner_result.
  cbn [optstring_find]. intros H.
  repeat match type of H with
         | context [Ascii.eqb ?a c] =>
             let E := fresh "E" in
             destruct (Ascii.eqb a c) eqn:E;
             [apply Ascii.eqb_eq in E; subst c; cbn in H;
              try (destruct rest; [destruct (gd_pending d)|]);
              inversion H; subst; cbn; eauto 10|]
         end.
  inversion H; subst. auto.
Qed.

Lemma process_long_option_key w d key diag d' :
  process_long_option long_options w d = (key, diag, d') ->
  optarg d = None ->
  scanner_result key (optarg d').
Proof.
  unfold process_long_option, scanner_result. intros H O.
  destruct (split_name w) as [nm arg].
  destruct (lookup_long long_options nm) as [p| |] eqn:L;
    try (inversion H; subst; auto).
  apply lookup_long_in in L. cbn in L.
  destruct L as [L|[L|[L|[L|[L|[]]]]]]; subst p; cbn in H;
    destruct arg; try destruct (gd_pending d);
    inversion H; subst; cbn; eauto 10.
Qed.

Lemma getopt_long_r_key d key diag d' :
  getopt_long_r optstring long_options d = (key, diag, d') ->
  key = -1 \/ scanner_result key (optarg d').
Proof.
  unfold getopt_long_r. intros H.
  destruct (gd_argv d); [inversion H; auto|].
  destruct (gd_nextchar (set_optarg_null d)).
  - destruct (if gd_posixly_correct (set_optarg_null d)
              then (gd_pending (set_optarg_null d),
                    gd_skipped (set_optarg_null d))
              else skip_nonoptions (gd_pending (set_optarg_null d))
                     (gd_skipped (set_optarg_null d)))
      as [pending skipped].
    destruct pending as [|a more]; [inversion H; auto|].
    destruct (String.eqb a "--"); [inversion H; auto|].
    destruct (NONOPTION_P a); [inversion H; auto|].
    destruct a as [|a0 a]; [inversion H; auto|].
    destruct (Ascii.eqb a0 "-") eqn:A0.
    + apply Ascii.eqb_eq in A0; subst a0.
      destruct a as [|a1 a]; [inversion H; auto|].
      destruct (Ascii.eqb a1 "-") eqn:A1.
      * apply Ascii.eqb_eq in A1; subst a1. right.
        eapply process_long_option_key; eauto.
      * right. eapply process_short_option_key with (c := a1).
        rewrite <- H. destruct a1 as [[] [] [] [] [] [] [] []];
          try reflexivity. discriminate.
    + destruct a0 as [[] [] [] [] [] [] [] []];
        try (inversion H; auto); discriminate.
  - right. eapply process_short_option_key; eauto.
Qed.

Lemma getopt_all_key (fuel : nat) :
  forall d toks dfin,
  getopt_all fuel d = (toks, dfin) ->
  forall key a dg, In (key, a, dg) toks -> scanner_result key a.
Proof.
  induction fuel as [|fuel IH]; intros d toks dfin G key a dg HI;
    cbn [getopt_all] in G.
  - inversion G; subst. destruct HI.
  - destruct (getopt_long_r optstring long_options d)
      as [[k m] d'] eqn:E.
    destruct (k =? -1) eqn:K.
    + inversion G; subst. destruct HI.
    + destruct (getopt_all fuel d') as [l e] eqn:G'.
      inversion G; subst. destruct HI as [HI|HI].
      * inversion HI; subst. apply getopt_long_r_key in E.
        apply Z.eqb_neq in K. tauto.
      * eapply IH; eauto.
Qed.

Lemma options_key (posixly_correct : bool) (argv : list string) :
  forall key a dg,
  In (key, a, dg) (options_of posixly_correct argv) -> scanner_result key a.
Proof.
  intros key a dg HI. unfold options_of, scan in HI.
  destruct (getopt_all _ _) as [toks dfin] eqn:G.
  eapply getopt_all_key; eauto.
Qed.

Lemma rejection_result (t : token) :
  fst (rejection t) = Val (Some (-1)) \/ fst (rejection t) = Exit 0
  \/ fst (rejection t) = Exit (-1) \/ fst (rejection t) = Fault.
Proof.
  destruct t as [[key arg] dg]. unfold rejection.
  repeat match goal with
         | |- context [if ?b then _ else _] => destruct b
         | |- context [match ?o with Some _ => _ | None => _ end] =>
             destruct o
         end; cbn; auto.
Qed.

Lemma to_int_range (v : Z) : - 2 ^ 31 <= to_int v < 2 ^ 31.
Proof.
  unfold to_int, INT_BITS.
  pose proof (Z.mod_pos_bound (v + 2 ^ (32 - 1)) (2 ^ 32)).
  change (2 ^ (32 - 1)) with 2147483648 in *.
  change (2 ^ 32) with 4294967296 in *.
  change (2 ^ 31) with 2147483648. lia.
Qed.

(** Among accepted options, the value of an option that was given is the
    number of one of its occurrences. *)
Lemma last_value_in (key : ascii) (toks : list token) :
  forall default,
  forallb accepted toks = true ->
  existsb (is_key key) toks = true ->
  exists s dg,
    In (chr key, Some s, dg) toks
    /\ last_value key toks default = number s.
Proof.
  induction toks as [|[[k [s|]] dg] toks IH]; intros default A E;
    cbn [forallb existsb last_value] in *; try discriminate;
    apply andb_true_iff in A as [A1 A2].
  destruct (existsb (is_key key) toks) eqn:X.
  - destruct (IH (if k =? chr key then number s else default) A2 eq_refl)
      as (s' & dg' & I1 & I2).
    exists s', dg'. split; [right; exact I1|exact I2].
  - rewrite orb_false_r in E. unfold is_key in E. cbn in E. rewrite E.
    rewrite last_value_absent by exact X.
    apply Z.eqb_eq in E; subst k. exists s, dg. split; [left|]; reflexivity.
Qed.

(** ** Decimal numerals *)

Lemma is_digit_value (c : ascii) :
  is_digit c = true ->
  digit_value c = Some (Z.of_nat (nat_of_ascii c) - 48)
  /\ 0 <= Z.of_nat (nat_of_ascii c) - 48 < 10.
Proof.
  unfold is_digit, digit_value. intros D. rewrite D.
  apply andb_true_iff in D as [D1 D2].
  apply Nat.leb_le in D1. apply Nat.leb_le in D2. split; [reflexivity|lia].
Qed.

Lemma all_digits_scan (s : string) :
  forall acc,
  all_digits s = true ->
  scan_digits 10 s acc = (decimal_value s acc, String.length s).
Proof.
  induction s as [|c s IH]; intros acc D; [reflexivity|].
  cbn [all_digits] in D. apply andb_true_iff in D as [D1 D2].
  apply is_digit_value in D1 as [V B].
  cbn [scan_digits decimal_value String.length]. rewrite V.
  replace (Z.of_nat (nat_of_ascii c) - 48 <? 10) with true
    by (symmetry; apply Z.ltb_lt; lia).
  specialize (IH (acc * 10 + (Z.of_nat (nat_of_ascii c) - 48)) D2).
  destruct (scan_digits 10 s (acc * 10 + (Z.of_nat (nat_of_ascii c) - 48)))
    as [v n].
  inversion IH; subst. reflexivity.
Qed.

Lemma decimal_value_ge (s : string) :
  forall acc,
  all_digits s = true -> 0 <= acc -> acc <= decimal_value s acc.
Proof.
  induction s as [|c s IH]; intros acc D A; [cbn; lia|].
  cbn [all_digits] in D. apply andb_true_iff in D as [D1 D2].
  apply is_digit_value in D1 as [_ B]. cbn [decimal_value].
  specialize (IH (acc * 10 + (Z.of_nat (nat_of_ascii c) - 48)) D2).
  lia.
Qed.

Lemma decimal_numeral_digits (s : string) :
  decimal_numeral s = true -> all_digits s = true.
Proof.
  destruct s as [|c s]; [discriminate|]. unfold decimal_numeral.
  destruct c as [[] [] [] [] [] [] [] []]; try (intros H; exact H).
  destruct s; [reflexivity|discriminate].
Qed.

(** [strtoul] reads a decimal numeral whole, as the number it denotes. *)
Lemma strtoul_decimal (s : string) :
  decimal_numeral s = true ->
  decimal_value s 0 <= ULONG_MAX ->
  strtoul s = (decimal_value s 0, String.length s).
Proof.
  intros N B. pose proof (decimal_numeral_digits s N) as D.
  pose proof (all_digits_scan s 0 D) as SC.
  destruct s as [|c s]; [discriminate|].
  cbn [all_digits] in D. apply andb_true_iff in D as [D1 _].
  destruct c as [[] [] [] [] [] [] [] []]; try discriminate D1;
    try (destruct s; [reflexivity|discriminate N]);
    unfold strtoul;
    cbv -[scan_digits decimal_value ULONG_MAX Z.ltb String.length];
    rewrite SC; cbn [String.length];
    match goal with
    | |- context [ULONG_MAX <? ?v] =>
        replace (ULONG_MAX <? v) with false
          by (symmetry; apply Z.ltb_ge; exact B)
    end; reflexivity.
Qed.

(** A decimal numeral below 2^31 is a whole number for [parse_opt], with
    its own value. *)
Lemma decimal_number (s : string) :
  decimal_numeral s = true ->
  decimal_value s 0 < 2 ^ 31 ->
  whole_number s = true /\ number s = decimal_value s 0.
Proof.
  intros N B. pose proof (decimal_numeral_digits s N) as D.
  pose proof (decimal_value_ge s 0 D (Z.le_refl 0)) as G.
  assert (U : decimal_value s 0 <= ULONG_MAX)
    by (unfold ULONG_MAX; change (2 ^ 31) with 2147483648 in B;
        change (2 ^ 64) with 18446744073709551616; lia).
  unfold whole_number, number. rewrite (strtoul_decimal s N U).
  split.
  - rewrite deref_at_end. destruct s; [discriminate|reflexivity].
  - cbn [fst]. unfold to_int, INT_BITS.
    change (2 ^ (32 - 1)) with 2147483648.
    change (2 ^ 32) with 4294967296.
    change (2 ^ 31) with 2147483648 in B.
    rewrite Z.mod_small by lia. lia.
Qed.

(** Case analysis on the membership of an event in an explicit log. *)
Ltac event_cases H :=
  cbn [In app report] in H;
  repeat match type of H with
         | _ \/ _ => destruct H as [H|H]
         | False => destruct H
         | _ = ?y => first [discriminate H | subst y
                            | inversion H; subst; clear H]
         end.

Section More.

Variable UBI_DEV_NUM_AUTO : Z.
Variable world : Type.
Variable lib : libubi_impl world.

Lemma run_is_parse (posixly_correct : bool) (argv : list string)
    (w : world) :
  fst (run_parse_opt UBI_DEV_NUM_AUTO posixly_correct argv w) <> Val 0 ->
  run UBI_DEV_NUM_AUTO lib posixly_correct argv w
  = run_parse_opt UBI_DEV_NUM_AUTO posixly_correct argv w.
Proof.
  intros N.
  destruct (run_cases UBI_DEV_NUM_AUTO world lib posixly_correct argv w)
    as [(_ & nd & v & st' & _ & P & _)|(_ & r & st1 & P & R & _)].
  - contradiction.
  - rewrite P, R. reflexivity.
Qed.

(** Every run, by the way [parse_opt] ends. *)
Lemma run_log (posixly_correct : bool) (argv : list string) (w : world) :
  let toks := options_of posixly_correct argv in
  let p := run_parse_opt UBI_DEV_NUM_AUTO posixly_correct argv w in
  let r := run UBI_DEV_NUM_AUTO lib posixly_correct argv w in
  (well_formed posixly_correct argv
   /\ fst p = Val 0
   /\ exists nd v,
       operands_of posixly_correct argv = [nd]
       /\ fst r = Val v
       /\ attach_run (parsed_args UBI_DEV_NUM_AUTO toks nd) v (log (snd r)))
  \/ (forallb accepted toks = true
      /\ ~ well_formed posixly_correct argv
      /\ r = p /\ fst p = Val (-1) /\ the_world (snd p) = w
      /\ exists msg,
          log (snd p) = [ev_errmsg msg []]
          /\ (msg = "UBI control device name was not specified (use -h for help)"
              \/ msg = "more then one UBI control device specified (use -h for help)"
              \/ msg = "MTD device number was not specified (use -h for help)"))
  \/ (exists pre t post,
        toks = pre ++ t :: post
        /\ forallb accepted pre = true /\ accepted t = false
        /\ r = p /\ the_world (snd p) = w
        /\ fst p = loop_exit (fst (rejection t))
        /\ log (snd p) = diagnostics [t] ++ snd (rejection t)).
Proof.
  cbv zeta.
  destruct (first_rejected (options_of posixly_correct argv))
    as [A|(pre & t & post & T & A & R)].
  - destruct (run_cases UBI_DEV_NUM_AUTO world lib posixly_correct argv w)
      as [(W & nd & v & st' & O & P & Rn & AR)|(W & r & st1 & P & Rn & _)].
    + left. split; [exact W|]. split; [exact P|].
      exists nd, v. rewrite Rn. auto.
    + right. left. split; [exact A|]. split; [exact W|].
      assert (C : List.length (operands_of posixly_correct argv) <> 1%nat
                  \/ existsb (is_key "m") (options_of posixly_correct argv)
                     = false).
      { destruct (Nat.eq_dec
                    (List.length (operands_of posixly_correct argv)) 1)
          as [L|L]; [|auto].
        destruct (existsb (is_key "m") (options_of posixly_correct argv))
          eqn:Mk; [|auto].
        exfalso. apply W. unfold well_formed. auto. }
      destruct (parse_opt_incomplete world UBI_DEV_NUM_AUTO posixly_correct
                  argv w A C) as (msg & Q & M).
      fold (run_parse_opt UBI_DEV_NUM_AUTO posixly_correct argv w) in Q.
      rewrite run_is_parse by (rewrite Q; discriminate).
      rewrite Q. cbn [fst snd log the_world].
      repeat split. exists msg. split; [reflexivity|].
      destruct M as [(_ & _ & M)|[(_ & _ & M)|(_ & _ & M)]]; auto.
  - right. right. exists pre, t, post.
    destruct (parse_opt_rejects world UBI_DEV_NUM_AUTO posixly_correct argv w
                pre post t T A R) as (d & Q & N1 & N2).
    fold (run_parse_opt UBI_DEV_NUM_AUTO posixly_correct argv w) in Q.
    assert (NZ : fst (run_parse_opt UBI_DEV_NUM_AUTO posixly_correct argv w)
                 <> Val 0).
    { rewrite Q. cbn [fst].
      destruct (rejection_result t) as [E|[E|[E|E]]]; rewrite E;
        discriminate. }
    rewrite run_is_parse by exact NZ. rewrite Q. cbn [fst snd log the_world].
    repeat split; auto.
Qed.

Lemma parse_opt_returns_0_aux (posixly_correct : bool) (argv : list string)
    (w : world) :
  fst (run_parse_opt UBI_DEV_NUM_AUTO posixly_correct argv w) = Val 0 ->
  well_formed posixly_correct argv.
Proof.
  intros E.
  destruct (parse_opt_cases world UBI_DEV_NUM_AUTO posixly_correct argv w)
    as [(W & _)|(_ & r & st1 & P & C & _)]; [exact W|].
  rewrite P in E. cbn in E. subst r.
  destruct C as [C|[C|[C|C]]]; discriminate.
Qed.

(** X1. [parse_opt] returns 0 exactly on the command lines whose options
    are all accepted, that have one non-option argument and give [-m];
    it then has printed nothing, has made no call, and [myargs] holds the
    values of the options with the non-option argument as the node. *)
Theorem parse_opt_returns_0 (posixly_correct : bool) (argv : list string)
    (w : world) :
  let p := run_parse_opt UBI_DEV_NUM_AUTO posixly_correct argv w in
  (fst p = Val 0 <-> well_formed posixly_correct argv)
  /\ (fst p = Val 0 ->
      exists nd,
        operands_of posixly_correct argv = [nd]
        /\ myargs (snd p)
           = parsed_args UBI_DEV_NUM_AUTO (options_of posixly_correct argv) nd
        /\ log (snd p) = []
        /\ the_world (snd p) = w).
Proof.
  cbv zeta.
  destruct (parse_opt_cases world UBI_DEV_NUM_AUTO posixly_correct argv w)
    as [(W & nd & O & P)|(W & r & st1 & P & C & _)]; rewrite P; cbn [fst snd].
  - split; [tauto|]. intros _. exists nd. auto.
  - assert (N : r <> Val 0)
      by (destruct C as [C|[C|[C|C]]]; subst r; discriminate).
    split; [split; intros; contradiction|intros; contradiction].
Qed.

(** X2. When every option is accepted, the error [parse_opt] reports is:
    the missing control device when there is no non-option argument; more
    than one control device when there are two or more, whether or not
    [-m] was given, and also when [argv] is empty ([optind] is 1 and
    [argc] is 0 then); and the missing MTD device number only when there
    is exactly one non-option argument and no [-m]. *)
Theorem operand_errors (posixly_correct : bool) (argv : list string)
    (w : world) :
  let toks := options_of posixly_correct argv in
  let ops := operands_of posixly_correct argv in
  let p := run_parse_opt UBI_DEV_NUM_AUTO posixly_correct argv w in
  forallb accepted toks = true ->
  (ops = [] -> argv <> [] ->
   p = (Val (-1),
        Build_state (store_all toks (myargs_init UBI_DEV_NUM_AUTO))
          (snd (scan posixly_correct argv)) w
          [ev_errmsg
             "UBI control device name was not specified (use -h for help)"
             []]))
  /\ ((2 <= List.length ops)%nat \/ argv = [] ->
      p = (Val (-1),
           Build_state (store_all toks (myargs_init UBI_DEV_NUM_AUTO))
             (snd (scan posixly_correct argv)) w
             [ev_errmsg
                "more then one UBI control device specified (use -h for help)"
                []]))
  /\ (List.length ops = 1%nat -> existsb (is_key "m") toks = false ->
      p = (Val (-1),
           Build_state (store_all toks (myargs_init UBI_DEV_NUM_AUTO))
             (snd (scan posixly_correct argv)) w
             [ev_errmsg
                "MTD device number was not specified (use -h for help)"
                []])).
Proof.
  cbv zeta. intros A. unfold run_parse_opt. repeat split.
  - intros O V.
    destruct (parse_opt_incomplete world UBI_DEV_NUM_AUTO posixly_correct
                argv w A) as (msg & Q & M); [left; rewrite O; discriminate|].
    rewrite Q.
    destruct M as [(_ & _ & ->)|[(_ & [X|X] & _)|(L & _)]];
      [reflexivity|contradiction|contradiction|rewrite O in L; discriminate].
  - intros [L|V].
    + destruct (parse_opt_incomplete world UBI_DEV_NUM_AUTO posixly_correct
                  argv w A) as (msg & Q & M); [left; lia|].
      rewrite Q.
      destruct M as [(O & _)|[(_ & _ & ->)|(O & _)]];
        [rewrite O in L; cbn in L; lia|reflexivity|lia].
    + subst argv. reflexivity.
  - intros L Mk.
    destruct (parse_opt_incomplete world UBI_DEV_NUM_AUTO posixly_correct
                argv w A) as (msg & Q & M); [right; exact Mk|].
    rewrite Q.
    destruct M as [(O & _)|[(O & _)|(_ & _ & ->)]];
      [rewrite O in L; discriminate|contradiction|reflexivity].
Qed.

(** X3. At [-h] or [--help], when the options before it were accepted, the
    program prints the description, the usage and the list of options on
    stderr and leaves by [exit 0]; at [-V] or [--version] it prints the
    version and leaves by [exit 0]. What follows on the command line is
    not looked at, and no call into libubi is made. *)
Theorem help_and_version (posixly_correct : bool) (argv : list string)
    (w : world) :
  let toks := options_of posixly_correct argv in
  let r := run UBI_DEV_NUM_AUTO lib posixly_correct argv w in
  forall pre key a dg post,
  toks = pre ++ (key, a, dg) :: post ->
  forallb accepted pre = true ->
  (key = chr "h" ->
   fst r = Exit 0
   /\ log (snd r) = [ ev_fprintf_stderr "%s\n\n" [arg_s doc];
                      ev_fprintf_stderr "%s\n\n" [arg_s usage];
                      ev_fprintf_stderr "%s\n" [arg_s optionsstr] ]
   /\ the_world (snd r) = w)
  /\ (key = chr "V" ->
      fst r = Exit 0
      /\ log (snd r) = [ev_fprintf_stderr "%s\n" [arg_s PROGRAM_VERSION]]
      /\ the_world (snd r) = w).
Proof.
  cbv zeta. intros pre key a dg post T A.
  assert (HI : In (key, a, dg) (options_of posixly_correct argv))
    by (rewrite T; apply in_or_app; right; left; reflexivity).
  assert (D : key = chr "h" \/ key = chr "V" -> dg = None).
  { intros K. destruct dg as [m|]; [|reflexivity].
    apply options_diag in HI. destruct K; subst key; discriminate. }
  split; intros K; subst key; (assert (dg = None) as -> by auto).
  - assert (R : accepted (chr "h", a, None) = false)
      by (destruct a; reflexivity).
    destruct (parse_opt_rejects world UBI_DEV_NUM_AUTO posixly_correct argv w
                pre post _ T A R) as (d & Q & _).
    fold (run_parse_opt UBI_DEV_NUM_AUTO posixly_correct argv w) in Q.
    rewrite run_is_parse by (rewrite Q; discriminate).
    rewrite Q. auto.
  - assert (R : accepted (chr "V", a, None) = false)
      by (destruct a; reflexivity).
    destruct (parse_opt_rejects world UBI_DEV_NUM_AUTO posixly_correct argv w
                pre post _ T A R) as (d & Q & _).
    fold (run_parse_opt UBI_DEV_NUM_AUTO posixly_correct argv w) in Q.
    rewrite run_is_parse by (rewrite Q; discriminate).
    rewrite Q. auto.
Qed.

(** X4. At an option [getopt_long] does not recognise (it returns ['?']:
    an unknown or ambiguous option, or a missing argument), when the
    options before it were accepted, the program prints a hint after the
    diagnostic of [getopt_long] and leaves by [exit (-1)], without any
    call into libubi. *)
Theorem unrecognised_option_exits (posixly_correct : bool)
    (argv : list string) (w : world) :
  let toks := options_of posixly_correct argv in
  let r := run UBI_DEV_NUM_AUTO lib posixly_correct argv w in
  forall pre a dg post,
  toks = pre ++ (QUESTION, a, dg) :: post ->
  forallb accepted pre = true ->
  fst r = Exit (-1)
  /\ log (snd r)
     = diagnostics [(QUESTION, a, dg)]
       ++ [ev_fprintf_stderr "Use -h for help\n" []]
  /\ the_world (snd r) = w.
Proof.
  cbv zeta. intros pre a dg post T A.
  assert (R : accepted (QUESTION, a, dg) = false)
    by (destruct a; reflexivity).
  destruct (parse_opt_rejects world UBI_DEV_NUM_AUTO posixly_correct argv w
              pre post _ T A R) as (d & Q & _).
  fold (run_parse_opt UBI_DEV_NUM_AUTO posixly_correct argv w) in Q.
  rewrite run_is_parse by (rewrite Q; discriminate).
  rewrite Q. auto.
Qed.

(** X5. The branch of [parse_opt] for a colon is never taken: the string
    of options given to [getopt_long] does not begin with a colon, so a
    missing argument is reported as ['?'], and no run prints that a
    parameter is missing. *)
Theorem parameter_is_missing_never_printed (posixly_correct : bool)
    (argv : list string) (w : world) :
  (forall key a dg,
     In (key, a, dg) (options_of posixly_correct argv) -> key <> chr ":")
  /\ forall args,
      ~ In (ev_errmsg "parameter is missing" args)
           (log (snd (run UBI_DEV_NUM_AUTO lib posixly_correct argv w))).
Proof.
  assert (K : forall key a dg,
             In (key, a, dg) (options_of posixly_correct argv) ->
             key <> chr ":").
  { intros key a dg HI. apply options_key in HI.
    destruct HI as [E|[[[E|E] _]|[E|[[E|E] _]]]]; subst key; discriminate. }
  split; [exact K|]. intros args HI.
  destruct (run_log posixly_correct argv w)
    as [(_ & _ & nd & v & _ & _ & AR)
       |[(_ & _ & E & _ & _ & msg & L & M)
        |(pre & t & post & T & _ & _ & E & _ & _ & L)]].
  - inversion AR; subst;
      match goal with X : _ = log _ |- _ => rewrite <- X in HI end;
      event_cases HI.
  - rewrite E, L in HI. destruct HI as [HI|[]].
    inversion HI; subst. destruct M as [M|[M|M]]; discriminate.
  - rewrite E, L in HI. destruct t as [[key a] dg].
    assert (N : key <> chr ":")
      by (eapply K; rewrite T; apply in_or_app; right; left; reflexivity).
    apply Z.eqb_neq in N. unfold rejection in HI. rewrite N in HI.
    destruct dg; cbn [diagnostics flat_map snd app] in HI;
      repeat match type of HI with
             | context [if ?b then _ else _] => destruct b
             | context [match ?o with Some _ => _ | None => _ end] =>
                 destruct o
             end; cbn in HI; event_cases HI.
Qed.

(** X6. [--vid-hdr-offset], on a command line of C strings: when
    [parse_opt] returns 0 the argument of every occurrence was consumed by
    [strtoul] to its end, had a numeric part, and gives a value that is
    strictly positive; and at the first option that is not accepted, when
    it is this option with an argument that has characters left after the
    number, no numeric part, or a value that is zero or negative,
    [parse_opt] prints the bad VID header offset message for that argument
    and returns -1, and so does [main]. *)
Theorem vid_hdr_offset_checked (posixly_correct : bool) (argv : list string)
    (w : world) :
  Forall nul_free argv ->
  let toks := options_of posixly_correct argv in
  let p := run_parse_opt UBI_DEV_NUM_AUTO posixly_correct argv w in
  (fst p = Val 0 ->
   forall s dg,
     In (chr "o", Some s, dg) toks ->
     snd (strtoul s) = String.length s
     /\ snd (strtoul s) <> 0%nat
     /\ 0 < number s)
  /\ (forall pre s dg post,
        toks = pre ++ (chr "o", Some s, dg) :: post ->
        forallb accepted pre = true ->
        (snd (strtoul s) < String.length s)%nat
        \/ snd (strtoul s) = 0%nat
        \/ number s <= 0 ->
        fst p = Val (-1)
        /\ log (snd p) =
           [ev_errmsg ("bad VID header offset: " ++ dq ++ "%s" ++ dq)
                      [arg_s s]]
        /\ run UBI_DEV_NUM_AUTO lib posixly_correct argv w = p).
Proof.
  intros CS. cbv zeta. split.
  - intros E s dg HI.
    assert (A : accepted (chr "o", Some s, dg) = true).
    { apply parse_opt_returns_0_aux in E. destruct E as (A & _).
      eapply forallb_forall in A; eauto. }
    pose proof (options_nul_free _ _ CS _ _ _ HI) as N.
    cbn in A. apply andb_true_iff in A as [B1 B2].
    apply whole_number_spec in B1; [|exact N]. apply Z.ltb_lt in B2.
    tauto.
  - intros pre s dg post T A Bad.
    assert (HI : In (chr "o", Some s, dg) (options_of posixly_correct argv))
      by (rewrite T; apply in_or_app; right; left; reflexivity).
    pose proof (options_nul_free _ _ CS _ _ _ HI) as N.
    assert (D : dg = None).
    { destruct dg as [m|]; [|reflexivity].
      apply options_diag in HI. discriminate. }
    subst dg.
    assert (R : accepted (chr "o", Some s, None) = false).
    { cbn. apply andb_false_iff.
      destruct (whole_number s) eqn:W; [|auto].
      apply whole_number_spec in W; [|exact N]. right.
      apply Z.ltb_ge. lia. }
    destruct (parse_opt_rejects world UBI_DEV_NUM_AUTO posixly_correct argv w
                pre post _ T A R) as (d & Q & _).
    fold (run_parse_opt UBI_DEV_NUM_AUTO posixly_correct argv w) in Q.
    rewrite run_is_parse by (rewrite Q; discriminate).
    rewrite Q. auto.
Qed.

(** X7. A run ends in a fault exactly when the first option that is not
    accepted is [-o] in its short form, which comes without an argument;
    nothing has been printed then and no call was made. The options [-d]
    and [-m] never reach [strtoul] without an argument. *)
Theorem fault_only_at_short_o (posixly_correct : bool) (argv : list string)
    (w : world) :
  let toks := options_of posixly_correct argv in
  let r := run UBI_DEV_NUM_AUTO lib posixly_correct argv w in
  (fst r = Fault
   <-> exists pre dg post,
       toks = pre ++ (chr "o", None, dg) :: post
       /\ forallb accepted pre = true)
  /\ (fst r = Fault -> log (snd r) = [] /\ the_world (snd r) = w)
  /\ (forall key dg,
        In (key, None, dg) toks -> key <> chr "d" /\ key <> chr "m").
Proof.
  cbv zeta.
  assert (K : forall key dg,
             In (key, None, dg) (options_of posixly_correct argv) ->
             key <> chr "d" /\ key <> chr "m").
  { intros key dg HI. apply options_key in HI.
    destruct HI as [E|[[_ [s E]]|[E|[[E|E] _]]]]; try discriminate;
      subst key; split; discriminate. }
  assert (B : forall pre dg post,
             options_of posixly_correct argv
             = pre ++ (chr "o", None, dg) :: post ->
             forallb accepted pre = true ->
             run UBI_DEV_NUM_AUTO lib posixly_correct argv w
             = run_parse_opt UBI_DEV_NUM_AUTO posixly_correct argv w
             /\ fst (run_parse_opt UBI_DEV_NUM_AUTO posixly_correct argv w)
                = Fault
             /\ log (snd (run_parse_opt UBI_DEV_NUM_AUTO posixly_correct
                           argv w)) = []
             /\ the_world (snd (run_parse_opt UBI_DEV_NUM_AUTO
                                 posixly_correct argv w)) = w).
  { intros pre dg post T A.
    assert (HI : In (chr "o", None, dg) (options_of posixly_correct argv))
      by (rewrite T; apply in_or_app; right; left; reflexivity).
    assert (D : dg = None).
    { destruct dg as [m|]; [|reflexivity].
      apply options_diag in HI. discriminate. }
    subst dg.
    destruct (parse_opt_rejects world UBI_DEV_NUM_AUTO posixly_correct argv w
                pre post (chr "o", None, None) T A eq_refl) as (d & Q & _).
    fold (run_parse_opt UBI_DEV_NUM_AUTO posixly_correct argv w) in Q.
    rewrite run_is_parse by (rewrite Q; discriminate).
    rewrite Q. auto. }
  assert (F : fst (run UBI_DEV_NUM_AUTO lib posixly_correct argv w) = Fault ->
              exists pre dg post,
                options_of posixly_correct argv
                = pre ++ (chr "o", None, dg) :: post
                /\ forallb accepted pre = true).
  { intros E.
    destruct (run_log posixly_correct argv w)
      as [(_ & _ & nd & v & _ & V & _)
         |[(_ & _ & Rp & V & _)
          |(pre & t & post & T & A & _ & Rp & _ & V & _)]].
    - rewrite V in E. discriminate.
    - rewrite Rp, V in E. discriminate.
    - rewrite Rp, V in E. destruct t as [[key a] dg].
      assert (HI : In (key, a, dg) (options_of posixly_correct argv))
        by (rewrite T; apply in_or_app; right; left; reflexivity).
      unfold rejection in E.
      destruct (key =? chr "d") eqn:Kd.
      { apply Z.eqb_eq in Kd. destruct a; [discriminate|].
        apply K in HI. tauto. }
      destruct (key =? chr "m") eqn:Km.
      { apply Z.eqb_eq in Km. destruct a; [discriminate|].
        apply K in HI. tauto. }
      destruct (key =? chr "o") eqn:Ko.
      { apply Z.eqb_eq in Ko. subst key. destruct a; [discriminate|].
        eauto. }
      destruct (key =? chr "h"); [discriminate|].
      destruct (key =? chr "V"); [discriminate|].
      destruct (key =? chr ":"); discriminate. }
  split; [split; [exact F|]|split; [|exact K]].
  - intros (pre & dg & post & T & A).
    destruct (B pre dg post T A) as (E1 & E2 & _). rewrite E1. exact E2.
  - intros E. destruct (F E) as (pre & dg & post & T & A).
    destruct (B pre dg post T A) as (E1 & _ & E3 & E4). rewrite E1. auto.
Qed.

(** What is known of a run in which [ubi_attach_mtd] is called. *)
Lemma attach_call (posixly_correct : bool) (argv : list string) (w : world)
    (h : libubi_t) (nd : option string) (req req' : ubi_attach_request)
    (err : Z) :
  In (ev_ubi_attach_mtd h nd req err req')
     (log (snd (run UBI_DEV_NUM_AUTO lib posixly_correct argv w))) ->
  well_formed posixly_correct argv
  /\ exists x,
      operands_of posixly_correct argv = [x]
      /\ nd = Some x
      /\ req = request (parsed_args UBI_DEV_NUM_AUTO
                          (options_of posixly_correct argv) x).
Proof.
  intros HI.
  destruct (run_log posixly_correct argv w)
    as [(W & _ & x & v & O & _ & AR)
       |[(_ & _ & E & _ & _ & msg & L & _)
        |(pre & t & post & _ & _ & _ & E & _ & _ & L)]].
  - split; [exact W|]. exists x. split; [exact O|].
    inversion AR; subst;
      match goal with X : _ = log _ |- _ => rewrite <- X in HI end;
      event_cases HI; auto.
  - rewrite E, L in HI. event_cases HI.
  - exfalso. rewrite E in HI.
    assert (X : In (ev_ubi_attach_mtd h nd req err req')
                  (filter is_step
                     (log (snd (run_parse_opt UBI_DEV_NUM_AUTO
                                  posixly_correct argv w)))))
      by (apply filter_In; split; [exact HI|reflexivity]).
    rewrite L, (rejection_quiet t) in X. exact X.
Qed.

(** X8. The numbers of an attach request are within bounds: the MTD
    number is between 0 and [INT_MAX]; so is the UBI device number when
    [-d] was given; and the VID header offset, when the option was given,
    is between 1 and [INT_MAX]. *)
Theorem attach_request_bounds (posixly_correct : bool) (argv : list string)
    (w : world) (h : libubi_t) (nd : option string)
    (req req' : ubi_attach_request) (err : Z) :
  let toks := options_of posixly_correct argv in
  In (ev_ubi_attach_mtd h nd req err req')
     (log (snd (run UBI_DEV_NUM_AUTO lib posixly_correct argv w))) ->
  0 <= mtd_num req < 2 ^ 31
  /\ (existsb (is_key "d") toks = true -> 0 <= dev_num req < 2 ^ 31)
  /\ (existsb (is_key "o") toks = true -> 0 < vid_hdr_offset req < 2 ^ 31).
Proof.
  cbv zeta. intros HI.
  destruct (attach_call _ _ _ _ _ _ _ _ HI) as ((A & _ & Mk) & x & _ & _ & ->).
  cbn [request parsed_args dev_num mtd_num vid_hdr_offset devn mtdn vidoffs].
  assert (B : forall key default,
             existsb (is_key key) (options_of posixly_correct argv) = true ->
             exists s dg,
               accepted (chr key, Some s, dg) = true
               /\ last_value key (options_of posixly_correct argv) default
                  = number s).
  { intros key default E.
    destruct (last_value_in key _ default A E) as (s & dg & I1 & I2).
    exists s, dg. split; [|exact I2].
    eapply forallb_forall in A; eauto. }
  split; [|split].
  - destruct (B "m"%char (-1) Mk) as (s & dg & Ac & ->).
    cbn in Ac. apply andb_true_iff in Ac as [_ Ac]. apply Z.leb_le in Ac.
    pose proof (to_int_range (fst (strtoul s))). unfold number in *. lia.
  - intros E. destruct (B "d"%char UBI_DEV_NUM_AUTO E) as (s & dg & Ac & ->).
    cbn in Ac. apply andb_true_iff in Ac as [_ Ac]. apply Z.leb_le in Ac.
    pose proof (to_int_range (fst (strtoul s))). unfold number in *. lia.
  - intros E. destruct (B "o"%char 0 E) as (s & dg & Ac & ->).
    cbn in Ac. apply andb_true_iff in Ac as [_ Ac]. apply Z.ltb_lt in Ac.
    pose proof (to_int_range (fst (strtoul s))). unfold number in *. lia.
Qed.

(** X9. [ubi_attach_mtd] is called with the control device node the
    command line names: its only non-option argument. *)
Theorem attach_node_is_operand (posixly_correct : bool) (argv : list string)
    (w : world) (h : libubi_t) (nd : option string)
    (req req' : ubi_attach_request) (err : Z) :
  In (ev_ubi_attach_mtd h nd req err req')
     (log (snd (run UBI_DEV_NUM_AUTO lib posixly_correct argv w))) ->
  exists x, operands_of posixly_correct argv = [x] /\ nd = Some x.
Proof.
  intros HI.
  destruct (attach_call _ _ _ _ _ _ _ _ HI) as (_ & x & O & N & _).
  eauto.
Qed.

(** X10. The message for a refused attach request names the MTD device of
    the command line: its argument is the value of the last [-m]. *)
Theorem attach_failure_names_mtd (posixly_correct : bool)
    (argv : list string) (w : world) (h : libubi_t) (nd : option string)
    (req req' : ubi_attach_request) (err : Z) :
  let l := log (snd (run UBI_DEV_NUM_AUTO lib posixly_correct argv w)) in
  In (ev_ubi_attach_mtd h nd req err req') l ->
  err <> 0 ->
  In (ev_errmsg "cannot attach mtd%d"
                [arg_d (last_value "m" (options_of posixly_correct argv)
                                   (-1))]) l
  /\ mtd_num req = last_value "m" (options_of posixly_correct argv) (-1).
Proof.
  cbv zeta. intros HI E.
  destruct (run_log posixly_correct argv w)
    as [(W & _ & x & v & O & _ & AR)
       |[(_ & _ & Rp & _ & _ & msg & L & _)
        |(pre & t & post & _ & _ & _ & Rp & _ & _ & L)]].
  - inversion AR; subst;
      match goal with X : _ = log _ |- _ => rewrite <- X in *; clear X end;
      event_cases HI; try congruence.
    split; [cbn; auto|reflexivity].
  - rewrite Rp, L in HI. event_cases HI.
  - exfalso. rewrite Rp in HI.
    assert (X : In (ev_ubi_attach_mtd h nd req err req')
                  (filter is_step
                     (log (snd (run_parse_opt UBI_DEV_NUM_AUTO
                                  posixly_correct argv w)))))
      by (apply filter_In; split; [exact HI|reflexivity]).
    rewrite L, (rejection_quiet t) in X. exact X.
Qed.

(** X11. Something is written on stdout only by the run that returns 0,
    and that run writes nothing on stderr: its log holds calls into libubi
    and output on stdout only. *)
Theorem output_streams (posixly_correct : bool) (argv : list string)
    (w : world) :
  let r := fst (run UBI_DEV_NUM_AUTO lib posixly_correct argv w) in
  let l := log (snd (run UBI_DEV_NUM_AUTO lib posixly_correct argv w)) in
  (forall e, In e l -> is_stdout e = true -> r = Val 0)
  /\ (r = Val 0 -> forall e, In e l -> is_step e = true).
Proof.
  cbv zeta.
  destruct (run_log posixly_correct argv w)
    as [(W & _ & x & v & O & V & AR)
       |[(_ & _ & Rp & V & _ & msg & L & _)
        |(pre & t & post & _ & _ & _ & Rp & _ & V & L)]].
  - rewrite V. split.
    + intros e HI S. inversion AR; subst;
        match goal with X : _ = log _ |- _ => rewrite <- X in *; clear X end;
        event_cases HI; try discriminate S; reflexivity.
    + intros E e HI. inversion E; subst v. inversion AR; subst.
      match goal with X : _ = log _ |- _ => rewrite <- X in *; clear X end.
      event_cases HI; reflexivity.
  - rewrite Rp, V, L. split; [|discriminate].
    intros e HI S. event_cases HI. discriminate S.
  - rewrite Rp. split.
    + intros e HI S. exfalso.
      assert (X : In e (filter is_step
                          (log (snd (run_parse_opt UBI_DEV_NUM_AUTO
                                       posixly_correct argv w)))))
        by (apply filter_In; split;
            [exact HI|destruct e; try discriminate S; reflexivity]).
      rewrite L, (rejection_quiet t) in X. exact X.
    + intros E. rewrite V in E.
      destruct (rejection_result t) as [F|[F|[F|F]]]; rewrite F in E;
        discriminate.
Qed.

(** X12. When [libubi_open] returns [NULL] the run is that call, the
    message and [perror]: [main] returns -1 and [libubi_close] is not
    called. *)
Theorem open_failure (posixly_correct : bool) (argv : list string)
    (w : world) :
  let r := fst (run UBI_DEV_NUM_AUTO lib posixly_correct argv w) in
  let l := log (snd (run UBI_DEV_NUM_AUTO lib posixly_correct argv w)) in
  In (ev_libubi_open NULL) l ->
  r = Val (-1)
  /\ l = [ ev_libubi_open NULL;
           ev_errmsg "cannot open libubi" [];
           ev_perror "libubi_open" ]
  /\ filter is_close l = [].
Proof.
  cbv zeta. intros HI.
  destruct (run_log posixly_correct argv w)
    as [(W & _ & x & v & O & V & AR)
       |[(_ & _ & Rp & _ & _ & msg & L & _)
        |(pre & t & post & _ & _ & _ & Rp & _ & _ & L)]].
  - rewrite V. inversion AR; subst;
      match goal with X : _ = log _ |- _ => rewrite <- X in *; clear X end;
      event_cases HI; try congruence.
    auto.
  - rewrite Rp, L in HI. event_cases HI.
  - exfalso. rewrite Rp in HI.
    assert (X : In (ev_libubi_open NULL)
                  (filter is_step
                     (log (snd (run_parse_opt UBI_DEV_NUM_AUTO
                                  posixly_correct argv w)))))
      by (apply filter_In; split; [exact HI|reflexivity]).
    rewrite L, (rejection_quiet t) in X. exact X.
Qed.

(** X13. The loop of [parse_opt] terminates on every command line, and a
    run ends in one of five ways: [main] returns 0 or -1, the program
    leaves by [exit 0] (help and version) or [exit (-1)], or it faults.
    When [parse_opt] does not return 0 the run ends as [parse_opt] does,
    without a call into libubi. *)
Theorem program_outcomes (posixly_correct : bool) (argv : list string)
    (w : world) :
  let p := run_parse_opt UBI_DEV_NUM_AUTO posixly_correct argv w in
  let r := run UBI_DEV_NUM_AUTO lib posixly_correct argv w in
  fst p <> OutOfFuel
  /\ (fst r = Val 0 \/ fst r = Val (-1) \/ fst r = Exit 0
      \/ fst r = Exit (-1) \/ fst r = Fault)
  /\ (fst p <> Val 0 ->
      r = p /\ the_world (snd r) = w /\ filter is_step (log (snd r)) = []).
Proof.
  cbv zeta.
  destruct (run_cases UBI_DEV_NUM_AUTO world lib posixly_correct argv w)
    as [(_ & nd & v & st' & _ & P & R & AR)
       |(_ & r & st1 & P & R & C & Wd & Q)].
  - rewrite P, R. cbn [fst]. split; [discriminate|].
    split; [inversion AR; auto|]. intros N. contradiction.
  - rewrite P, R. cbn [fst snd]. split; [|split].
    + destruct C as [C|[C|[C|C]]]; subst r; discriminate.
    + destruct C as [C|[C|[C|C]]]; subst r; auto.
    + auto.
Qed.

(** X14. An option argument that is a decimal numeral below 2^31 (digits
    only, no leading zero) is a whole number for [parse_opt] and is stored
    as the number it denotes; it passes the check of [-d] and of [-m], and
    that of the VID header offset exactly when it is not 0; given as the
    last [-m], [-d] or VID header offset of a command line on which
    [ubi_attach_mtd] is called, that number is what the request carries. *)
Theorem decimal_option_values (s : string) :
  decimal_numeral s = true ->
  decimal_value s 0 < 2 ^ 31 ->
  whole_number s = true
  /\ number s = decimal_value s 0
  /\ (forall dg, accepted (chr "d", Some s, dg) = true)
  /\ (forall dg, accepted (chr "m", Some s, dg) = true)
  /\ (forall dg,
        accepted (chr "o", Some s, dg) = negb (decimal_value s 0 =? 0))
  /\ forall posixly_correct argv w h nd req err req' pre key dg post,
      In (ev_ubi_attach_mtd h nd req err req')
         (log (snd (run UBI_DEV_NUM_AUTO lib posixly_correct argv w))) ->
      options_of posixly_correct argv
      = pre ++ (chr key, Some s, dg) :: post ->
      existsb (is_key key) post = false ->
      (key = "m"%char -> mtd_num req = decimal_value s 0)
      /\ (key = "d"%char -> dev_num req = decimal_value s 0)
      /\ (key = "o"%char -> vid_hdr_offset req = decimal_value s 0).
Proof.
  intros N B. destruct (decimal_number s N B) as [W V].
  pose proof (decimal_value_ge s 0 (decimal_numeral_digits s N)
                (Z.le_refl 0)) as G.
  assert (P0 : (0 <=? decimal_value s 0) = true) by (apply Z.leb_le; exact G).
  split; [exact W|]. split; [exact V|].
  split; [intros dg; cbn; rewrite W, V, P0; reflexivity|].
  split; [intros dg; cbn; rewrite W, V, P0; reflexivity|].
  split.
  { intros dg. cbn. rewrite W, V. cbn [andb].
    destruct (Z.eqb_spec (decimal_value s 0) 0) as [E|E]; cbn [negb].
    - rewrite E. reflexivity.
    - apply Z.ltb_lt. lia. }
  intros posixly_correct argv w h nd req err req' pre key dg post HI T E.
  destruct (attach_call _ _ _ _ _ _ _ _ HI) as (_ & x & _ & _ & ->).
  cbn [request parsed_args dev_num mtd_num vid_hdr_offset devn mtdn vidoffs].
  rewrite T.
  repeat split; intros ->; rewrite last_value_last by exact E; exact V.
Qed.

(** C5, where the program fails. The argument [-4294967295] of [-m] is a
    negative number: [strtoul] reads the minus sign and negates in
    [unsigned long], and the result, cut to an [int], is 1. The test for a
    negative value in [parse_opt] does not see it: the argument is
    accepted, nothing is printed, [parse_opt] returns 0 with the MTD number
    1, and that is the number of the attach request. *)
Theorem wrapped_negative_device_number (posixly_correct : bool) (w : world) :
  let argv := ["ubiattach"; "-m"; "-4294967295"; "/dev/ubi_ctrl"] in
  let p := run_parse_opt UBI_DEV_NUM_AUTO posixly_correct argv w in
  options_of posixly_correct argv = [(chr "m", Some "-4294967295", None)]
  /\ strtoul "-4294967295" = (2 ^ 64 - 4294967295, 11%nat)
  /\ number "-4294967295" = 1
  /\ fst p = Val 0
  /\ myargs (snd p)
     = {| devn := UBI_DEV_NUM_AUTO; mtdn := 1; vidoffs := 0;
          node := Some "/dev/ubi_ctrl" |}
  /\ log (snd p) = []
  /\ forall h nd req err req',
      In (ev_ubi_attach_mtd h nd req err req')
         (log (snd (run UBI_DEV_NUM_AUTO lib posixly_correct argv w))) ->
      mtd_num req = 1.
Proof.
  cbv zeta.
  split; [destruct posixly_correct; reflexivity|].
  split; [reflexivity|]. split; [reflexivity|].
  split; [destruct posixly_correct; reflexivity|].
  split; [destruct posixly_correct; reflexivity|].
  split; [destruct posixly_correct; reflexivity|].
  intros h nd req err req' HI.
  destruct (attach_call _ _ _ _ _ _ _ _ HI) as (_ & x & _ & _ & ->).
  destruct posixly_correct; reflexivity.
Qed.


End More.

(** ** The further properties on concrete command lines *)

Lemma operand_errors_witness :
  run_parse_opt (-1) false ["ubiattach"; "a"; "b"; "-d"; "1"] all_well
  = (Val (-1),
     {| myargs := {| devn := 1; mtdn := -1; vidoffs := 0; node := None |};
        gd := snd (scan false ["ubiattach"; "a"; "b"; "-d"; "1"]);
        the_world := all_well;
        log := [ev_errmsg
                  "more then one UBI control device specified (use -h for help)"
                  []] |}).
Proof.
  refine (proj1 (proj2 (operand_errors (-1) script false
                          ["ubiattach"; "a"; "b"; "-d"; "1"] all_well _))
                _).
  - reflexivity.
  - left. vm_compute. lia.
Defined.

Lemma help_and_version_witness :
  fst (run (-1) scripted_libubi false
         ["ubiattach"; "-m"; "0"; "--help"; "-x"] all_well)
  = Exit 0.
Proof.
  refine (proj1 (proj1 (help_and_version (-1) script scripted_libubi false
                          ["ubiattach"; "-m"; "0"; "--help"; "-x"] all_well
                          [(chr "m", Some "0", None)] (chr "h") None None
                          [(QUESTION, None, Some (invalid_option "x"))]
                          _ _) _)).
  - reflexivity.
  - reflexivity.
  - reflexivity.
Defined.

Lemma unrecognised_option_exits_witness :
  fst (run (-1) scripted_libubi false ["ubiattach"; "-m"] all_well)
  = Exit (-1)
  /\ log (snd (run (-1) scripted_libubi false ["ubiattach"; "-m"] all_well))
     = [ev_getopt (option_requires_an_argument "m");
        ev_fprintf_stderr "Use -h for help\n" []].
Proof.
  destruct (unrecognised_option_exits (-1) script scripted_libubi false
              ["ubiattach"; "-m"] all_well
              [] None (Some (option_requires_an_argument "m")) [])
    as (R & L & _).
  - reflexivity.
  - reflexivity.
  - split; [exact R|exact L].
Defined.

Lemma vid_hdr_offset_checked_witness :
  Forall nul_free ["ubiattach"; "--vid-hdr-offset=0"; "/dev/ubi_ctrl"]
  /\ fst (run_parse_opt (-1) false
            ["ubiattach"; "--vid-hdr-offset=0"; "/dev/ubi_ctrl"] all_well)
     = Val (-1).
Proof.
  assert (C : Forall nul_free
                ["ubiattach"; "--vid-hdr-offset=0"; "/dev/ubi_ctrl"])
    by (repeat constructor; discriminate).
  split; [exact C|].
  refine (proj1 (proj2 (vid_hdr_offset_checked (-1) script scripted_libubi
                          false
                          ["ubiattach"; "--vid-hdr-offset=0";
                           "/dev/ubi_ctrl"] all_well C)
                   [] "0" None [] _ _ _)).
  - reflexivity.
  - reflexivity.
  - right. right. vm_compute. discriminate.
Defined.

Lemma attach_request_bounds_witness :
  0 <= mtd_num {| dev_num := 7; mtd_num := 0; vid_hdr_offset := 2048 |}
    < 2 ^ 31.
Proof.
  refine (proj1 (attach_request_bounds (-1) script scripted_libubi false
                   ["ubiattach"; "/dev/ubi_ctrl"; "-m"; "0"; "-d"; "7";
                    "--vid-hdr-offset=2048"] all_well
                   1 (Some "/dev/ubi_ctrl")
                   {| dev_num := 7; mtd_num := 0; vid_hdr_offset := 2048 |}
                   {| dev_num := 3; mtd_num := 0; vid_hdr_offset := 2048 |}
                   0 _)).
  in_log.
Defined.

Lemma attach_node_is_operand_witness :
  exists x,
    operands_of false ["ubiattach"; "-m"; "0"; "/dev/ubi_ctrl"] = [x]
    /\ Some "/dev/ubi_ctrl" = Some x.
Proof.
  refine (attach_node_is_operand (-1) script scripted_libubi false
            ["ubiattach"; "-m"; "0"; "/dev/ubi_ctrl"] all_well
            1 (Some "/dev/ubi_ctrl")
            {| dev_num := -1; mtd_num := 0; vid_hdr_offset := 0 |}
            {| dev_num := 3; mtd_num := 0; vid_hdr_offset := 0 |}
            0 _).
  in_log.
Defined.

Lemma attach_failure_names_mtd_witness :
  In (ev_errmsg "cannot attach mtd%d"
        [arg_d (last_value "m"
                  (options_of false
                     ["ubiattach"; "/dev/ubi_ctrl"; "-m"; "4"]) (-1))])
     (log (snd (run (-1) scripted_libubi false
                  ["ubiattach"; "/dev/ubi_ctrl"; "-m"; "4"]
                  attach_refused))).
Proof.
  refine (proj1 (attach_failure_names_mtd (-1) script scripted_libubi false
                   ["ubiattach"; "/dev/ubi_ctrl"; "-m"; "4"] attach_refused
                   1 (Some "/dev/ubi_ctrl")
                   {| dev_num := -1; mtd_num := 4; vid_hdr_offset := 0 |}
                   {| dev_num := 3; mtd_num := 4; vid_hdr_offset := 0 |}
                   (-1) _ _)).
  - in_log.
  - discriminate.
Defined.

Lemma open_failure_witness :
  fst (run (-1) scripted_libubi false
         ["ubiattach"; "/dev/ubi_ctrl"; "-m"; "0"] cannot_open)
  = Val (-1)
  /\ filter is_close
       (log (snd (run (-1) scripted_libubi false
                    ["ubiattach"; "/dev/ubi_ctrl"; "-m"; "0"] cannot_open)))
     = [].
Proof.
  destruct (open_failure (-1) script scripted_libubi false
              ["ubiattach"; "/dev/ubi_ctrl"; "-m"; "0"] cannot_open)
    as (R & _ & C).
  - in_log.
  - split; [exact R|exact C].
Defined.

Lemma decimal_option_values_witness :
  whole_number "2048" = true /\ number "2048" = decimal_value "2048" 0.
Proof.
  destruct (decimal_option_values (-1) script scripted_libubi "2048")
    as (W & V & _ & _ & _ & _).
  - reflexivity.
  - vm_compute. reflexivity.
  - split; [exact W|exact V].
Defined.

(** A leading zero makes the number octal, and [0x] hexadecimal: the base
    given to [strtoul] is 0. *)
Example octal_and_hexadecimal :
  number "010" = 8 /\ number "0x10" = 16
  /\ decimal_numeral "010" = false.
Proof. repeat split. Qed.

